(** * imgo: the BMP header and pixel-buffer builder of encode.go

    A shallow embedding of [EncodeImg] and [ConvertToRGBA] (src/encode.go)
    and of the helpers [Width], [Height] and [GetSize] (src/img.go), then of
    the rest of the package's file and format helpers: [getFm], [IsBlack],
    [ToString], [Decode], [Encode], [Read], [DecodeFile], [ToBytes],
    [ImgToBytes], [Save], [Create], [ToByteImg] and [OpenBase64], over a
    small file system and the [encoding/base64] encoder they call.

    Go's [int] is a 64-bit two's-complement integer; it is modelled as [Z]
    with [wrap64] applied after every [+] and [*].  A [uint32] conversion is
    [u32] (reduction modulo 2^32), a [uint8] conversion is [u8]. *)

From Stdlib Require Import ZArith Lia Bool List Ascii String.
From stdpp Require Import base list gmap strings.
Import ListNotations.
Open Scope Z_scope.

(** ** Machine integers *)

Definition wrap64 (z : Z) : Z := (z + 2 ^ 63) mod 2 ^ 64 - 2 ^ 63.
Definition u32 (z : Z) : Z := z mod 2 ^ 32.
Definition u8 (z : Z) : Z := z mod 2 ^ 8.

(** ** The image package: points, rectangles, slices, colors *)

Record Point := MkPoint { X : Z; Y : Z }.
Record Rectangle := MkRectangle { Min : Point; Max : Point }.

(** [Rectangle.Size]: [Point{r.Max.X - r.Min.X, r.Max.Y - r.Min.Y}]. *)
Definition Size (r : Rectangle) : Point :=
  MkPoint (wrap64 (X (Max r) - X (Min r))) (wrap64 (Y (Max r) - Y (Min r))).

(** [image.Rect]: swaps the coordinates so that the result is well formed. *)
Definition Rect (x0 y0 x1 y1 : Z) : Rectangle :=
  let '(x0, x1) := if x1 <? x0 then (x1, x0) else (x0, x1) in
  let '(y0, y1) := if y1 <? y0 then (y1, y0) else (y0, y1) in
  MkRectangle (MkPoint x0 y0) (MkPoint x1 y1).

(** A Go byte slice: the address of its backing array and its bytes.  Two
    slices with the same address share their storage. *)
Record Slice := MkSlice { sl_ptr : N; sl_data : list Z }.

(** The nil slice. *)
Definition nil_slice : Slice := MkSlice 0 [].

(** A [color.Color], observed through its [RGBA()] method: the four
    alpha-premultiplied channel values it returns, as [uint32]. *)
Record Color := MkColor { c_r : Z; c_g : Z; c_b : Z; c_a : Z }.

Record Gray := MkGray { gray_Pix : Slice; gray_Stride : Z; gray_Rect : Rectangle }.
Record Paletted := MkPaletted
  { pal_Pix : Slice; pal_Stride : Z; pal_Rect : Rectangle; pal_Palette : list Color }.
Record RGBA := MkRGBA { rgba_Pix : Slice; rgba_Stride : Z; rgba_Rect : Rectangle }.
Record NRGBA := MkNRGBA { nrgba_Pix : Slice; nrgba_Stride : Z; nrgba_Rect : Rectangle }.

(** An [image.Image] value, by its dynamic type: the four concrete types the
    type switches of [EncodeImg] name, and any other implementation, seen
    through its [Bounds()]. *)
Inductive Image :=
| ImgGray (m : Gray)
| ImgPaletted (m : Paletted)
| ImgRGBA (m : RGBA)
| ImgNRGBA (m : NRGBA)
| ImgOther (bounds : Rectangle).

Definition Bounds (m : Image) : Rectangle :=
  match m with
  | ImgGray g => gray_Rect g
  | ImgPaletted p => pal_Rect p
  | ImgRGBA p => rgba_Rect p
  | ImgNRGBA p => nrgba_Rect p
  | ImgOther r => r
  end.

(** ** The BMP header (type [header] of encode.go) *)

Record header := MkHeader
  { sigBM : list Z; fileSize : Z; resverved : list Z; pixOffset : Z;
    dibHeaderSize : Z; width : Z; height : Z; colorPlane : Z; bpp : Z;
    compression : Z; imageSize : Z; xPixelsPerMeter : Z; yPixelsPerMeter : Z;
    colorUse : Z; colorImportant : Z }.

(** The four assignments every branch of the first type switch makes:
    [h.imageSize], [h.fileSize], [h.pixOffset] and [h.bpp]. *)
Definition set_sizes (h : header) (isz fsz poff bits : Z) : header :=
  MkHeader (sigBM h) fsz (resverved h) poff (dibHeaderSize h) (width h)
    (height h) (colorPlane h) bits (compression h) isz (xPixelsPerMeter h)
    (yPixelsPerMeter h) (colorUse h) (colorImportant h).

(** The composite literal [&header{...}] of lines 15-23. *)
Definition header_init (d : Point) : header :=
  MkHeader [66; 77] (14 + 40) [0; 0] (14 + 40) 40 (u32 (X d)) (u32 (Y d)) 1 0
    0 0 0 0 0 0.

(** ** The palette loops *)

(** A counting [for] loop [for i := i0; cond(i); i++ { body }], run for at
    most [fuel] iterations; both loops of [EncodeImg] stop at [i < 256]. *)
Fixpoint for_loop (cond : nat -> bool) (body : nat -> list Z -> list Z)
    (fuel i : nat) (s : list Z) : list Z :=
  match fuel with
  | O => s
  | S f => if cond i then for_loop cond body f (S i) (body i s) else s
  end.

(** [palette[i*4+0] = b; palette[i*4+1] = g; palette[i*4+2] = r;
    palette[i*4+3] = a] *)
Definition set_entry (i : nat) (b g r a : Z) (p : list Z) : list Z :=
  <[(i * 4 + 3)%nat := a]> (<[(i * 4 + 2)%nat := r]>
    (<[(i * 4 + 1)%nat := g]> (<[(i * 4 + 0)%nat := b]> p))).

(** [make([]byte, 1024)] *)
Definition zero_palette : list Z := replicate 1024 0.

(** Lines 31-37: the identity gray ramp. *)
Definition gray_palette : list Z :=
  for_loop (fun i => (i <? 256)%nat)
    (fun i p => set_entry i (u8 (Z.of_nat i)) (u8 (Z.of_nat i)) (u8 (Z.of_nat i)) 255 p)
    256 0 zero_palette.

Definition black : Color := MkColor 0 0 0 0.

(** Lines 45-52: the palette copied from [m.Palette]. *)
Definition paletted_palette (pal : list Color) : list Z :=
  for_loop (fun i => (i <? length pal)%nat && (i <? 256)%nat)
    (fun i p =>
       let c := nth i pal black in
       set_entry i (u8 (Z.shiftr (c_b c) 8)) (u8 (Z.shiftr (c_g c) 8))
         (u8 (Z.shiftr (c_r c) 8)) 255 p)
    256 0 zero_palette.

(** ** EncodeImg *)

(** The error value [errors.New("imgo: negative bounds")]. *)
Definition err_negative_bounds : string := "imgo: negative bounds".

(** The values of the named results and of the locals of [EncodeImg] at its
    [return]: [pix], [stride], [err], and the header [h], the row [step],
    the [palette] and [opaque] (the header is [None] when [EncodeImg] returns
    before building it). *)
Record Locals := MkLocals
  { l_pix : Slice; l_stride : Z; l_err : option string;
    l_h : option header; l_step : Z; l_palette : list Z; l_opaque : bool }.

(** What [EncodeImg] returns to its caller: [(pix, stride, err)]. *)
Record Result := MkResult { r_pix : Slice; r_stride : Z; r_err : option string }.

Section Encode.

(** The standard library's [Opaque] methods of [image.RGBA] and [image.NRGBA]
    (pointer receivers): whether the image reports itself fully opaque. *)
Variable RGBA_Opaque : RGBA -> bool.
Variable NRGBA_Opaque : NRGBA -> bool.

(** The first type switch (lines 25-84): [step], [palette], [opaque] and the
    updated header. *)
Definition header_switch (m : Image) (d : Point) (h : header)
    : Z * list Z * bool * header :=
  match m with
  | ImgGray _ =>
      let step := Z.ldiff (wrap64 (X d + 3)) 3 in
      let palette := gray_palette in
      let isz := u32 (wrap64 (Y d * step)) in
      (step, palette, false,
       set_sizes h isz
         (u32 (fileSize h + u32 (u32 (Z.of_nat (length palette)) + isz)))
         (u32 (pixOffset h + u32 (Z.of_nat (length palette)))) 8)
  | ImgPaletted p =>
      let step := Z.ldiff (wrap64 (X d + 3)) 3 in
      let palette := paletted_palette (pal_Palette p) in
      let isz := u32 (wrap64 (Y d * step)) in
      (step, palette, false,
       set_sizes h isz
         (u32 (fileSize h + u32 (u32 (Z.of_nat (length palette)) + isz)))
         (u32 (pixOffset h + u32 (Z.of_nat (length palette)))) 8)
  | ImgRGBA p =>
      let opaque := RGBA_Opaque p in
      let '(step, bits) :=
        if opaque then (Z.ldiff (wrap64 (wrap64 (3 * X d) + 3)) 3, 24)
        else (wrap64 (4 * X d), 32) in
      let isz := u32 (wrap64 (Y d * step)) in
      (step, [], opaque,
       set_sizes h isz (u32 (fileSize h + isz)) (pixOffset h) bits)
  | ImgNRGBA p =>
      let opaque := NRGBA_Opaque p in
      let '(step, bits) :=
        if opaque then (Z.ldiff (wrap64 (wrap64 (3 * X d) + 3)) 3, 24)
        else (wrap64 (4 * X d), 32) in
      let isz := u32 (wrap64 (Y d * step)) in
      (step, [], opaque,
       set_sizes h isz (u32 (fileSize h + isz)) (pixOffset h) bits)
  | ImgOther _ =>
      let step := Z.ldiff (wrap64 (wrap64 (3 * X d) + 3)) 3 in
      let isz := u32 (wrap64 (Y d * step)) in
      (step, [], false,
       set_sizes h isz (u32 (fileSize h + isz)) (pixOffset h) 24)
  end.

(** The second type switch (lines 90-106). *)
Definition pix_switch (m : Image) : Slice * Z :=
  match m with
  | ImgGray g => (gray_Pix g, gray_Stride g)
  | ImgPaletted p => (pal_Pix p, pal_Stride p)
  | ImgRGBA p => (rgba_Pix p, rgba_Stride p)
  | ImgNRGBA p => (nrgba_Pix p, nrgba_Stride p)
  | ImgOther _ => (nil_slice, 0)
  end.

Definition EncodeImg_run (m : Image) : Locals :=
  let d := Size (Bounds m) in
  if (X d <? 0) || (Y d <? 0) then
    MkLocals nil_slice 0 (Some err_negative_bounds) None 0 [] false
  else
    let '(step, palette, opaque, h) := header_switch m d (header_init d) in
    if (X d =? 0) || (Y d =? 0) then
      MkLocals nil_slice 0 None (Some h) step palette opaque
    else
      let '(pix, stride) := pix_switch m in
      MkLocals pix stride None (Some h) step palette opaque.

(** [func EncodeImg(m image.Image) (pix []uint8, stride int, err error)] *)
Definition EncodeImg (m : Image) : Result :=
  let l := EncodeImg_run m in MkResult (l_pix l) (l_stride l) (l_err l).

(** [func ConvertToRGBA(img image.Image) (r *image.RGBA)]; [Width] and
    [Height] are those of img.go. *)
Definition Width (img : Image) : Z := X (Max (Bounds img)).
Definition Height (img : Image) : Z := Y (Max (Bounds img)).

Definition ConvertToRGBA (img : Image) : RGBA :=
  let r := EncodeImg img in
  MkRGBA (r_pix r) (r_stride r) (Rect 0 0 (Width img) (Height img)).

End Encode.

(** ** GetSize (img.go) *)

(** [image.Config]: the decoded color model is not used by [GetSize]. *)
Record Config := MkConfig { cfg_Width : Z; cfg_Height : Z }.

Section GetSize.

(** The file system and the decoders are external: [os.Open] yields a file
    or an error, [image.DecodeConfig] a configuration and a format name, or
    an error. *)
Variables File Error : Type.
Variable os_Open : string -> File + Error.
Variable DecodeConfig : File -> (Config * string) + Error.

(** [func GetSize(imagePath string) (int, int, error)]; the deferred
    [file.Close()] does not change the results.  Go's [/] on [int] truncates
    toward zero, which is [Z.quot]. *)
Definition GetSize (imagePath : string) : Z * Z * option Error :=
  match os_Open imagePath with
  | inr err => (0, 0, Some err)
  | inl file =>
      match DecodeConfig file with
      | inr err => (0, 0, Some err)
      | inl (img, _) =>
          let w := Z.quot (cfg_Width img) 2 in
          let h := Z.quot (cfg_Height img) 2 in
          (w, h, None)
      end
  end.

End GetSize.

(** ** Sample images *)

Definition rect_wh (w h : Z) : Rectangle := MkRectangle (MkPoint 0 0) (MkPoint w h).
Definition gray_img (w h stride : Z) (pix : Slice) : Image :=
  ImgGray (MkGray pix stride (rect_wh w h)).

(** Stand-ins for the [Opaque] methods in concrete runs. *)
Definition rgba_all_opaque (_ : RGBA) : bool := true.
Definition nrgba_all_opaque (_ : NRGBA) : bool := true.
Definition rgba_never_opaque (_ : RGBA) : bool := false.
Definition nrgba_never_opaque (_ : NRGBA) : bool := false.

(** ** Predicates, observations and further sample images *)

(** Rounding up to a multiple of 4, the [ceil4] of the spec. *)
Definition ceil4 (n : Z) : Z := 4 * ((n + 3) / 4).

(** The images of the two 8-bit branches of the type switch. *)
Definition is_8bit (m : Image) : bool :=
  match m with ImgGray _ | ImgPaletted _ => true | _ => false end.

(** What an [image.RGBA] or [image.NRGBA] reports through [Opaque()]. *)
Definition reported_opaque (Op : RGBA -> bool) (NOp : NRGBA -> bool)
    (m : Image) : option bool :=
  match m with
  | ImgRGBA p => Some (Op p)
  | ImgNRGBA p => Some (NOp p)
  | _ => None
  end.

Definition rgba_img (w h : Z) (pix : Slice) : Image :=
  ImgRGBA (MkRGBA pix (4 * w) (rect_wh w h)).

(** Palette entry [i]: its four bytes [palette[i*4+0 .. i*4+3]], in the
    order B, G, R, A in which [EncodeImg] stores them. *)
Definition palette_entry (pal : list Z) (i : nat) : option (Z * Z * Z * Z) :=
  match pal !! (i * 4 + 0)%nat, pal !! (i * 4 + 1)%nat,
        pal !! (i * 4 + 2)%nat, pal !! (i * 4 + 3)%nat with
  | Some b, Some g, Some r, Some a => Some (b, g, r, a)
  | _, _, _, _ => None
  end.

(** A palette color whose [RGBA()] is [(0xFFFF, 0, 0, 0xFFFF)]: pure red. *)
Definition red : Color := MkColor 65535 0 0 65535.

Definition paletted_img (w h : Z) (pal : list Color) : Image :=
  ImgPaletted (MkPaletted nil_slice w (rect_wh w h) pal).

(** A palette color whose [RGBA()] is [(0x12AB, 0x12AB, 0x12AB, 0xFFFF)], as
    [color.Gray16{0x12AB}] reports. *)
Definition gray16_12AB : Color := MkColor 4779 4779 4779 65535.

(** The [Stride] field of the four concrete image types. *)
Definition Stride_of (m : Image) : option Z :=
  match m with
  | ImgGray g => Some (gray_Stride g)
  | ImgPaletted p => Some (pal_Stride p)
  | ImgRGBA p => Some (rgba_Stride p)
  | ImgNRGBA p => Some (nrgba_Stride p)
  | ImgOther _ => None
  end.

(** The formats the second type switch hands on. *)
Definition is_supported (m : Image) : bool :=
  match m with ImgOther _ => false | _ => true end.

Definition gray_5x1 : Image := gray_img 5 1 5 (MkSlice 1 [0; 64; 128; 192; 255]).

(** [&image.Gray{Rect: image.Rect(0, 0, 5, 1)}]: a 5 x 1 gray image whose
    [Pix] is nil and whose [Stride] is 0. *)
Definition gray_nil_pix : Image := gray_img 5 1 0 nil_slice.

(** The invariant of the standard library's image types: the pixel at
    [(x, y)] of a [W x H] image occupies [Pix[y*Stride + x*bpp ..
    y*Stride + (x+1)*bpp - 1]], and these bytes exist. *)
Definition pix_in_range (pix : Slice) (stride bpp w h : Z) : bool :=
  forallb (fun y =>
    forallb (fun x =>
      (0 <=? y * stride + x * bpp) &&
      (y * stride + (x + 1) * bpp <=? Z.of_nat (length (sl_data pix))))
      (map Z.of_nat (seq 0 (Z.to_nat w))))
    (map Z.of_nat (seq 0 (Z.to_nat h))).

Definition well_formed (m : Image) : bool :=
  let d := Size (Bounds m) in
  match m with
  | ImgGray g => pix_in_range (gray_Pix g) (gray_Stride g) 1 (X d) (Y d)
  | ImgPaletted p => pix_in_range (pal_Pix p) (pal_Stride p) 1 (X d) (Y d)
  | ImgRGBA p => pix_in_range (rgba_Pix p) (rgba_Stride p) 4 (X d) (Y d)
  | ImgNRGBA p => pix_in_range (nrgba_Pix p) (nrgba_Stride p) 4 (X d) (Y d)
  | ImgOther _ => true
  end.

(** [image.NewRGBA(image.Rect(0, 0, 3, 3)).SubImage(image.Rect(1, 1, 3, 3))]:
    bounds [(1,1)-(3,3)], the parent's stride 12, and the parent's [Pix]
    from [PixOffset(1, 1) = 16] on (20 bytes). *)
Definition rgba_sub : Image :=
  ImgRGBA (MkRGBA (MkSlice 1 (repeat 0 20)) 12
             (MkRectangle (MkPoint 1 1) (MkPoint 3 3))).

(** ** Strings: [strings.Split] on ["."] and [getFm] *)

Local Open Scope string_scope.

(** Go's string slicing [s[:n]] and [s[n:]] on a byte string. *)
Fixpoint str_take (n : nat) (s : string) : string :=
  match n, s with
  | O, _ | _, EmptyString => EmptyString
  | S n', String c r => String c (str_take n' r)
  end.

Fixpoint str_drop (n : nat) (s : string) : string :=
  match n, s with
  | O, _ => s
  | _, EmptyString => EmptyString
  | S n', String _ r => str_drop n' r
  end.

Definition dot : Ascii.ascii := "."%char.

(** [strings.Index(s, ".")], with [-1] as [None]. *)
Fixpoint index_dot (s : string) : option nat :=
  match s with
  | EmptyString => None
  | String c r =>
      if Ascii.eqb c dot then Some O
      else match index_dot r with Some m => Some (S m) | None => None end
  end.

(** [strings.Count(s, ".")]. *)
Fixpoint count_dot (s : string) : nat :=
  match s with
  | EmptyString => O
  | String c r => (if Ascii.eqb c dot then 1 else 0) + count_dot r
  end.

(** The loop of [genSplit(s, ".", 0, -1)]: at most [n - 1 = Count(s, ".")]
    cuts at the first remaining ["."], then the rest as the last field. *)
Fixpoint split_loop (fuel : nat) (s : string) : list string :=
  match fuel with
  | O => [s]
  | S f =>
      match index_dot s with
      | None => [s]
      | Some m => str_take m s :: split_loop f (str_drop (m + 1) s)
      end
  end.

(** [strings.Split(s, ".")] *)
Definition Split_dot (s : string) : list string := split_loop (count_dot s) s.

(** [func getFm(path string) string]: [p[len(p)-1]]; [None] stands for the
    index-out-of-range panic on an empty [p]. *)
Definition getFm (path : string) : option string :=
  let p := Split_dot path in
  match p with
  | [] => None
  | _ => nth_error p (length p - 1)
  end.

(** [strings.Join(p, ".")], the inverse of [Split]. *)
Fixpoint join_dot (p : list string) : string :=
  match p with
  | [] => EmptyString
  | [x] => x
  | x :: xs => x ++ String dot (join_dot xs)
  end.

(** ** [IsBlack] and [ToString] *)

(** [color.Gray16.RGBA]: [y := uint32(c.Y); return y, y, y, 0xffff]. *)
Definition Gray16_RGBA (y : Z) : Color := MkColor (y mod 2 ^ 32) (y mod 2 ^ 32) (y mod 2 ^ 32) 65535.

(** [br, bg, bb, ba = color.Black.RGBA()], with [color.Black = Gray16{0}]. *)
Definition black_rgba : Color := Gray16_RGBA 0.

(** [func IsBlack(c color.Color) bool] *)
Definition IsBlack (c : Color) : bool :=
  Z.eqb (c_r c) (c_r black_rgba) && Z.eqb (c_g c) (c_g black_rgba) &&
  Z.eqb (c_b c) (c_b black_rgba) && Z.eqb (c_a c) (c_a black_rgba).

(** An [image.Image] seen through its [Bounds()] and [At(x, y)] methods. *)
Record ImageView := MkImageView { iv_Bounds : Rectangle; iv_At : Z -> Z -> Color }.

Definition pixel_char (c : Color) : string := if IsBlack c then "." else "O".

(** The inner loop [for col := Min.X; col < Max.X; col++]; [col < Max.X]
    keeps [col++] from wrapping, and [Max.X - Min.X] bounds the iterations. *)
Fixpoint cols_loop (img : ImageView) (row : Z) (fuel : nat) (col : Z)
    (result : string) : string :=
  match fuel with
  | O => result
  | S f =>
      if Z.ltb col (X (Max (iv_Bounds img))) then
        cols_loop img row f (col + 1) (result ++ pixel_char (iv_At img col row))
      else result
  end.

(** The outer loop [for row := Min.Y; row < Max.Y; row++]. *)
Fixpoint rows_loop (img : ImageView) (fuel : nat) (row : Z) (result : string)
    : string :=
  match fuel with
  | O => result
  | S f =>
      if Z.ltb row (Y (Max (iv_Bounds img))) then
        let result :=
          cols_loop img row (Z.to_nat (X (Max (iv_Bounds img)) - X (Min (iv_Bounds img))))
            (X (Min (iv_Bounds img))) result in
        rows_loop img f (row + 1) (result ++ "
")
      else result
  end.

(** [func ToString(img image.Image) (result string)] *)
Definition ToString (img : ImageView) : string :=
  rows_loop img (Z.to_nat (Y (Max (iv_Bounds img)) - Y (Min (iv_Bounds img))))
    (Y (Min (iv_Bounds img))) "".

(** The text [ToString] is expected to produce, row by row. *)
Definition newline : Ascii.ascii := Ascii.ascii_of_nat 10.

Definition expected_rows (img : ImageView) : list Ascii.ascii :=
  let b := iv_Bounds img in
  concat (map (fun r => app (
    map (fun c => if IsBlack (iv_At img (X (Min b) + Z.of_nat c) (Y (Min b) + Z.of_nat r))
                  then dot else "O"%char)
        (seq 0 (Z.to_nat (X (Max b) - X (Min b))))) [newline])
    (seq 0 (Z.to_nat (Y (Max b) - Y (Min b))))).

Local Close Scope string_scope.

(** ** Formats, files and base64 (src/unnamed/part_001) *)

(** The bytes of a string, as Go's [[]byte(s)] gives them. *)
Definition bytes_of (s : string) : list Z :=
  map (fun a => Z.of_nat (Ascii.nat_of_ascii a)) (list_ascii_of_string s).

(** *** [encoding/base64] *)

(** [type Encoding]: the 64 letters [encode] and [padChar], which is
    [NoPadding = -1] when the encoding does not pad. *)
Record Encoding := MkEncoding { encode : list Z; padChar : Z }.

Definition NoPadding : Z := -1.
Definition StdPadding : Z := 61.
Definition encodeStd : string :=
  "ABCDEFGHIJKLMNOPQRSTUVWXYZabcdefghijklmnopqrstuvwxyz0123456789+/".

(** [base64.StdEncoding] and [base64.RawStdEncoding =
    StdEncoding.WithPadding(NoPadding)]. *)
Definition StdEncoding : Encoding := MkEncoding (bytes_of encodeStd) StdPadding.
Definition RawStdEncoding : Encoding := MkEncoding (bytes_of encodeStd) NoPadding.

(** [func (enc *Encoding) EncodedLen(n int) int] *)
Definition EncodedLen (enc : Encoding) (n : Z) : Z :=
  if Z.eqb (padChar enc) NoPadding then
    wrap64 (wrap64 (Z.quot n 3 * 4) + Z.quot (wrap64 (wrap64 (Z.rem n 3 * 8) + 5)) 6)
  else wrap64 (Z.quot (wrap64 (n + 2)) 3 * 4).

(** [dst[i] = v]; [None] is the index-out-of-range panic. *)
Definition store (dst : list Z) (i : nat) (v : Z) : option (list Z) :=
  if (i <? length dst)%nat then Some (<[i := v]> dst) else None.

(** [enc.encode[v&0x3F]] *)
Definition enc_at (enc : Encoding) (v : Z) : Z :=
  nth (Z.to_nat (Z.land v 63)) (encode enc) 0.

(** The loop [for si < n] of [Encode], one 3-byte group per round; the
    reads [src[si+0..2]] are in range as [si + 2 < n <= len(src)]. *)
Fixpoint encode_loop (enc : Encoding) (src : list Z) (n : nat) (fuel : nat)
    (si di : nat) (dst : list Z) : option (list Z * nat * nat) :=
  match fuel with
  | O => Some (dst, si, di)
  | S f =>
      if (si <? n)%nat then
        let val := Z.lor (Z.lor (Z.shiftl (nth si src 0) 16)
                           (Z.shiftl (nth (si + 1) src 0) 8)) (nth (si + 2) src 0) in
        dst ← store dst di (enc_at enc (Z.shiftr val 18));
        dst ← store dst (di + 1) (enc_at enc (Z.shiftr val 12));
        dst ← store dst (di + 2) (enc_at enc (Z.shiftr val 6));
        dst ← store dst (di + 3) (enc_at enc val);
        encode_loop enc src n f (si + 3) (di + 4) dst
      else Some (dst, si, di)
  end.

(** [func (enc *Encoding) Encode(dst, src []byte)]: the updated [dst], or
    [None] for a panic. *)
Definition Encode_b64 (enc : Encoding) (dst src : list Z) : option (list Z) :=
  if Nat.eqb (length src) 0 then Some dst else
  let n := (length src / 3 * 3)%nat in
  match encode_loop enc src n (length src) 0 0 dst with
  | None => None
  | Some (dst, si, di) =>
      let remain := (length src - si)%nat in
      if Nat.eqb remain 0 then Some dst else
      let val := Z.shiftl (nth si src 0) 16 in
      let val := if Nat.eqb remain 2 then Z.lor val (Z.shiftl (nth (si + 1) src 0) 8)
                 else val in
      dst ← store dst di (enc_at enc (Z.shiftr val 18));
      dst ← store dst (di + 1) (enc_at enc (Z.shiftr val 12));
      match remain with
      | 2%nat =>
          dst ← store dst (di + 2) (enc_at enc (Z.shiftr val 6));
          if negb (Z.eqb (padChar enc) NoPadding)
          then store dst (di + 3) (u8 (padChar enc)) else Some dst
      | 1%nat =>
          if negb (Z.eqb (padChar enc) NoPadding)
          then dst ← store dst (di + 2) (u8 (padChar enc));
               store dst (di + 3) (u8 (padChar enc))
          else Some dst
      | _ => Some dst
      end
  end.

(** [func (enc *Encoding) EncodeToString(src []byte) string]:
    [buf := make([]byte, enc.EncodedLen(len(src))); enc.Encode(buf, src)]. *)
Definition EncodeToString (enc : Encoding) (src : list Z) : option (list Z) :=
  let l := EncodedLen enc (Z.of_nat (length src)) in
  if l <? 0 then None else Encode_b64 enc (replicate (Z.to_nat l) 0) src.

(** *** A file system *)

(** The files by name, the open-file table (name, and whether the
    descriptor is still open), and the next descriptor. *)
Record OS := MkOS
  { os_files : gmap string (list Z); os_fds : gmap nat (string * bool); os_next : nat }.

(** The text of the [*PathError] of a missing file. *)
Definition err_not_exist (op name : string) : string :=
  op +:+ " " +:+ name +:+ ": no such file or directory".

(** [os.Open(name)] then reading the file: its bytes, or the error. *)
Definition os_Open (s : OS) (name : string) : list Z + string :=
  match os_files s !! name with
  | Some b => inl b
  | None => inr (err_not_exist "open" name)
  end.

(** [f.Write(b)] *)
Definition os_Write (s : OS) (fd : nat) (b : list Z) : OS * option string :=
  match os_fds s !! fd with
  | Some (name, true) =>
      (MkOS (<[name := default [] (os_files s !! name) ++ b]> (os_files s))
         (os_fds s) (os_next s), None)
  | Some (name, false) => (s, Some ("write " +:+ name +:+ ": file already closed"))
  | None => (s, Some "invalid argument")
  end.

(** [f.Close()] *)
Definition os_Close (s : OS) (fd : nat) : OS * option string :=
  match os_fds s !! fd with
  | Some (name, true) =>
      (MkOS (os_files s) (<[fd := (name, false)]> (os_fds s)) (os_next s), None)
  | Some (name, false) => (s, Some ("close " +:+ name +:+ ": file already closed"))
  | None => (s, Some "invalid argument")
  end.

(** The format names of the [switch fm] in [Decode] and [Encode]. *)
Definition codec_formats : list string := ["jpeg"; "png"; "gif"; "bmp"; "tiff"].
Definition is_format (fm : string) : bool := existsb (String.eqb fm) codec_formats.

Section Codecs.

(** An [image.Image] value ([nil] included), and the codecs of the standard
    library and of [golang.org/x/image]: a decoder reads the bytes of its
    reader, an encoder yields the bytes it writes to [out] and its error. *)
Variable Img : Type.
Variable nil_Img : Img.
Variables jpeg_Decode png_Decode gif_Decode bmp_Decode tiff_Decode
  : list Z -> Img * option string.
Variables jpeg_Encode png_Encode gif_Encode bmp_Encode tiff_Encode
  : Img -> list Z * option string.
(** [image.Decode]: the image, the name of the format it recognised, the
    error. *)
Variable image_Decode : list Z -> Img * string * option string.
(** Why [os.Create] fails (a missing directory, no permission, ...). *)
Variable create_error : OS -> string -> option string.
(** Why opening or reading a file that exists fails. *)
Variable read_error : OS -> string -> option string.

(** [func Decode(f *os.File, fm string) (image.Image, error)] *)
Definition Decode (f : list Z) (fm : string) : Img * option string :=
  if String.eqb fm "jpeg" then jpeg_Decode f
  else if String.eqb fm "png" then png_Decode f
  else if String.eqb fm "gif" then gif_Decode f
  else if String.eqb fm "bmp" then bmp_Decode f
  else if String.eqb fm "tiff" then tiff_Decode f
  else (nil_Img, Some "Decode: Error format").

(** Bytes an encoder writes, appended to what [out] holds. *)
Definition write_to (out : list Z) (r : list Z * option string) : list Z * option string :=
  (out ++ fst r, snd r).

(** [func Encode(out io.Writer, subImg image.Image, fm string) error], with
    the writer's contents before and after. *)
Definition Encode (out : list Z) (subImg : Img) (fm : string) : list Z * option string :=
  if String.eqb fm "jpeg" then write_to out (jpeg_Encode subImg)
  else if String.eqb fm "png" then write_to out (png_Encode subImg)
  else if String.eqb fm "gif" then write_to out (gif_Encode subImg)
  else if String.eqb fm "bmp" then write_to out (bmp_Encode subImg)
  else if String.eqb fm "tiff" then write_to out (tiff_Encode subImg)
  else (out, Some "Encode: ERROR FORMAT").



(** [func ToBytes(img image.Image, fm string) ([]byte, error)]: encoding
    into a fresh [bytes.Buffer]. *)
Definition ToBytes (img : Img) (fm : string) : list Z * option string :=
  let '(buf, err) := Encode [] img fm in
  match err with
  | Some e => ([], Some e)
  | None => (buf, None)
  end.


(** [func ToByteImg(img image.Image, fm ...string) []byte]; [None] is a
    panic of [make] or of [base64.StdEncoding.Encode]. *)
Definition ToByteImg (img : Img) (fm : list string) : option (list Z) :=
  let typ := match fm with [] => "jpeg" | t :: _ => t end in
  let '(buff, err) := Encode [] img typ in
  match err with
  | Some _ => Some []
  | None =>
      let l := EncodedLen RawStdEncoding (wrap64 (Z.of_nat (length buff) + 1024)) in
      if l <? 0 then None
      else Encode_b64 StdEncoding (replicate (Z.to_nat l) 0) buff
  end.

(** [ioutil.ReadFile(name)]: a missing file fails as in [os_Open]; a file
    that exists may still fail to open or read, with the error
    [read_error] gives (no read permission, a directory, ...). *)
Definition ReadFile (s : OS) (name : string) : list Z + string :=
  match os_Open s name with
  | inr err => inr err
  | inl b => match read_error s name with Some err => inr err | None => inl b end
  end.

(** [func OpenBase64(file string) (encode string, err error)]: the bytes of
    the string [encode] and [err]; [None] is a panic. *)
Definition OpenBase64 (s : OS) (file : string) : option (list Z * option string) :=
  match ReadFile s file with
  | inr err => Some ([], Some err)
  | inl data =>
      match EncodeToString StdEncoding data with
      | None => None
      | Some e => Some (e, None)
      end
  end.

(** [os.Create(name)]: creates the file or empties an existing one, and
    opens it. *)
Definition os_Create (s : OS) (name : string) : (nat * OS) + string :=
  match create_error s name with
  | Some e => inr e
  | None =>
      let fd := os_next s in
      inl (fd, MkOS (<[name := []]> (os_files s)) (<[fd := (name, true)]> (os_fds s))
                 (S fd))
  end.

(** [func Save(path string, img image.Image) error]: the encoder's bytes go
    through [f], and the deferred [f.Close()] runs after [Encode]; [None] is
    the panic of [getFm]. *)
Definition Save (s : OS) (path : string) (img : Img) : option (OS * option string) :=
  match os_Create s path with
  | inr err => Some (s, Some err)
  | inl (fd, s1) =>
      match getFm path with
      | None => None
      | Some fm =>
          let '(w, err) := Encode [] img fm in
          let s2 := fst (os_Write s1 fd w) in
          Some (fst (os_Close s2 fd), err)
      end
  end.

(** [func Create(path string) ( *os.File, error)]: the deferred [f.Close()]
    runs before the caller gets [f]. *)
Definition Create (s : OS) (path : string) : option nat * option string * OS :=
  match os_Create s path with
  | inr err => (None, Some err, s)
  | inl (fd, s1) => (Some fd, None, fst (os_Close s1 fd))
  end.

End Codecs.

(** A gray image whose bounds run from x = 4 back to x = 2. *)
Definition gray_flipped : Image :=
  ImgGray (MkGray nil_slice 0 (MkRectangle (MkPoint 4 0) (MkPoint 2 1))).

(** Concrete codecs and a file system for exercising the I/O functions:
    images are numbers, every encoder writes the single byte 1, every
    decoder returns image 1, and no file operation fails. *)
Definition enc_one (_ : nat) : list Z * option string := ([1], None).

Definition dec_one (_ : list Z) : nat * option string := (1%nat, None).


Definition os_no_error (_ : OS) (_ : string) : option string := None.

Definition os_demo : OS :=
  MkOS (<["a.png" := [137; 80; 78; 71]]> ∅) ∅ 0.

Example gray5_step :
  l_step (EncodeImg_run rgba_all_opaque nrgba_all_opaque
            (gray_img 5 1 5 (MkSlice 7 [1;2;3;4;5]))) = 8.
Proof. reflexivity. Qed.

(** ** Arithmetic of the row step *)

Lemma ldiff_3 (a : Z) : Z.ldiff a 3 = 4 * (a / 4).
Proof.
  change 3 with (Z.ones 2).
  rewrite Z.ldiff_ones_r by lia.
  rewrite Z.shiftl_mul_pow2, Z.shiftr_div_pow2 by lia.
  change (2 ^ 2) with 4. lia.
Qed.

Lemma wrap64_range (z : Z) : - 2 ^ 63 <= wrap64 z < 2 ^ 63.
Proof. unfold wrap64. pose proof (Z.mod_pos_bound (z + 2 ^ 63) (2 ^ 64)). lia. Qed.

(** [wrap64 z] differs from [z] by a multiple of 2^64. *)
Lemma wrap64_eq (z : Z) : exists k, wrap64 z = z + k * 2 ^ 64.
Proof.
  unfold wrap64. exists (- ((z + 2 ^ 63) / 2 ^ 64)).
  pose proof (Z.div_mod (z + 2 ^ 63) (2 ^ 64)). lia.
Qed.

Lemma wrap64_unique (x z : Z) (k : Z) :
  - 2 ^ 63 <= x < 2 ^ 63 -> x = z + k * 2 ^ 64 -> x = wrap64 z.
Proof.
  intros Hr Hx. unfold wrap64.
  rewrite <- (Z.mod_unique (z + 2 ^ 63) (2 ^ 64) (- k) (x + 2 ^ 63)); lia.
Qed.

Lemma wrap64_small (z : Z) : - 2 ^ 63 <= z < 2 ^ 63 -> wrap64 z = z.
Proof. intros H. symmetry. apply (wrap64_unique z z 0); lia. Qed.

Lemma wrap64_shift (z k : Z) : wrap64 (z + k * 2 ^ 64) = wrap64 z.
Proof.
  destruct (wrap64_eq z) as [j Hj].
  symmetry. apply (wrap64_unique _ _ (j - k)); [apply wrap64_range | lia].
Qed.

Lemma wrap64_add_l (a b : Z) : wrap64 (wrap64 a + b) = wrap64 (a + b).
Proof.
  destruct (wrap64_eq a) as [k ->].
  replace (a + k * 2 ^ 64 + b) with ((a + b) + k * 2 ^ 64) by lia.
  apply wrap64_shift.
Qed.

Lemma u32_wrap64 (z : Z) : u32 (wrap64 z) = u32 z.
Proof.
  destruct (wrap64_eq z) as [k ->]. unfold u32.
  replace (z + k * 2 ^ 64) with (z + (k * 2 ^ 32) * 2 ^ 32) by lia.
  apply Z.mod_add. lia.
Qed.

(** The step [(x + 3) &^ 3] computed on Go [int]s. *)
Lemma step_ceil4 (a : Z) : Z.ldiff (wrap64 (a + 3)) 3 = wrap64 (ceil4 a).
Proof.
  rewrite ldiff_3. destruct (wrap64_eq (a + 3)) as [k Hk].
  pose proof (wrap64_range (a + 3)).
  apply (wrap64_unique _ _ k).
  - pose proof (Z.mul_div_le (wrap64 (a + 3)) 4).
    pose proof (Z.mod_pos_bound (wrap64 (a + 3)) 4).
    pose proof (Z.div_mod (wrap64 (a + 3)) 4). lia.
  - unfold ceil4. rewrite Hk.
    replace (a + 3 + k * 2 ^ 64) with ((a + 3) + (k * 2 ^ 62) * 4) by lia.
    rewrite Z.div_add by lia. lia.
Qed.

Lemma wrap64_mod4 (z : Z) : z mod 4 = 0 -> wrap64 z mod 4 = 0.
Proof.
  intros H. destruct (wrap64_eq z) as [k ->].
  replace (z + k * 2 ^ 64) with (z + (k * 2 ^ 62) * 4) by lia.
  rewrite Z.mod_add by lia. exact H.
Qed.

Lemma ceil4_mod4 (n : Z) : ceil4 n mod 4 = 0.
Proof. unfold ceil4. rewrite Z.mul_comm. apply Z.mod_mul. lia. Qed.

(** [uint32(d.Y * step)] only depends on [step] modulo 2^64. *)
Lemma u32_mul_wrap64 (y s : Z) : u32 (wrap64 (y * wrap64 s)) = u32 (y * s).
Proof.
  rewrite u32_wrap64. destruct (wrap64_eq s) as [k ->]. unfold u32.
  replace (y * (s + k * 2 ^ 64)) with (y * s + (y * k * 2 ^ 32) * 2 ^ 32) by lia.
  apply Z.mod_add. lia.
Qed.

(** ** The path of [EncodeImg] past the bounds check *)

Section Paths.

Variable RGBA_Opaque : RGBA -> bool.
Variable NRGBA_Opaque : NRGBA -> bool.

Abbreviation run := (EncodeImg_run RGBA_Opaque NRGBA_Opaque).
Abbreviation hswitch := (header_switch RGBA_Opaque NRGBA_Opaque).

Lemma run_negative (m : Image) :
  X (Size (Bounds m)) < 0 \/ Y (Size (Bounds m)) < 0 ->
  run m = MkLocals nil_slice 0 (Some err_negative_bounds) None 0 [] false.
Proof.
  intros Hn. unfold EncodeImg_run.
  replace ((X (Size (Bounds m)) <? 0) || (Y (Size (Bounds m)) <? 0)) with true
    by (destruct Hn as [Hn | Hn]; apply Z.ltb_lt in Hn; rewrite Hn;
        [reflexivity | symmetry; apply orb_true_r]).
  reflexivity.
Qed.

Lemma run_nonneg (m : Image) :
  let d := Size (Bounds m) in
  0 <= X d -> 0 <= Y d ->
  let '(step, palette, opaque, h) := hswitch m d (header_init d) in
  l_err (run m) = None /\ l_h (run m) = Some h /\ l_step (run m) = step /\
  l_palette (run m) = palette /\ l_opaque (run m) = opaque /\
  (l_pix (run m), l_stride (run m)) =
    (if (X d =? 0) || (Y d =? 0) then (nil_slice, 0) else pix_switch m).
Proof.
  intros d Hx Hy. unfold EncodeImg_run. fold d.
  replace ((X d <? 0) || (Y d <? 0)) with false
    by (symmetry; apply orb_false_iff; split; apply Z.ltb_ge; assumption).
  destruct (hswitch m d (header_init d)) as [[[step palette] opaque] h].
  destruct ((X d =? 0) || (Y d =? 0)); [repeat split |].
  destruct (pix_switch m) as [pix stride]. repeat split.
Qed.

Lemma run_h_some (m : Image) (h : header) :
  l_h (run m) = Some h ->
  0 <= X (Size (Bounds m)) /\ 0 <= Y (Size (Bounds m)) /\
  snd (hswitch m (Size (Bounds m)) (header_init (Size (Bounds m)))) = h.
Proof.
  intros Hh.
  destruct (Z_lt_le_dec (X (Size (Bounds m))) 0) as [Hx | Hx].
  { rewrite run_negative in Hh by auto. discriminate. }
  destruct (Z_lt_le_dec (Y (Size (Bounds m))) 0) as [Hy | Hy].
  { rewrite run_negative in Hh by auto. discriminate. }
  pose proof (run_nonneg m Hx Hy) as Hr.
  destruct (hswitch m _ _) as [[[step palette] opaque] h'].
  destruct Hr as (_ & Hh' & _). rewrite Hh' in Hh. injection Hh as <-.
  auto.
Qed.

End Paths.

Example gray5_header :
  l_h (EncodeImg_run rgba_all_opaque nrgba_all_opaque
         (gray_img 5 3 5 nil_slice))
  = Some (MkHeader [66; 77] (1078 + 24) [0; 0] 1078 40 5 3 1 8 0 24 0 0 0 0).
Proof. reflexivity. Qed.

(** ** The palettes have 1024 bytes *)

Lemma length_set_entry (i : nat) (b g r a : Z) (p : list Z) :
  length (set_entry i b g r a p) = length p.
Proof. unfold set_entry. rewrite !length_insert. reflexivity. Qed.

Lemma length_for_loop cond body fuel i s :
  (forall j t, length (body j t) = length t) ->
  length (for_loop cond body fuel i s) = length s.
Proof.
  intros Hb. revert i s. induction fuel as [| f IH]; intros i s; simpl; [done |].
  destruct (cond i); [rewrite IH, Hb |]; done.
Qed.

Lemma length_gray_palette : length gray_palette = 1024%nat.
Proof. apply length_for_loop. intros. apply length_set_entry. Qed.

Lemma length_paletted_palette (pal : list Color) :
  length (paletted_palette pal) = 1024%nat.
Proof. apply length_for_loop. intros. apply length_set_entry. Qed.

(** ** Claims about the header *)

Lemma u32_add_u32_r (a b : Z) : u32 (a + u32 b) = u32 (a + b).
Proof. unfold u32. apply Z.add_mod_idemp_r. lia. Qed.

Lemma u32_add_u32_l (a b : Z) : u32 (u32 a + b) = u32 (a + b).
Proof. unfold u32. apply Z.add_mod_idemp_l. lia. Qed.

Lemma u32_palette_sum (w : Z) :
  u32 (14 + 40 + u32 (u32 (Z.of_nat 1024) + u32 w))
  = u32 (u32 (14 + 40 + u32 (Z.of_nat 1024)) + u32 w).
Proof.
  unfold u32. change (Z.of_nat 1024 mod 2 ^ 32) with 1024.
  change ((14 + 40 + 1024) mod 2 ^ 32) with 1078.
  rewrite Z.add_mod_idemp_r, Z.add_assoc, !Z.add_mod_idemp_r by lia.
  f_equal.
Qed.

(** C1: whenever [EncodeImg] builds its header (the bounds are not
    negative), [h.fileSize == h.pixOffset + h.imageSize] holds in the
    header's [uint32] arithmetic, in every branch of the type switch. *)
Theorem fileSize_eq_pixOffset_plus_imageSize
    (Op : RGBA -> bool) (NOp : NRGBA -> bool) (m : Image) (h : header) :
  l_h (EncodeImg_run Op NOp m) = Some h ->
  fileSize h = u32 (pixOffset h + imageSize h).
Proof.
  intros Hh. apply run_h_some in Hh as (_ & _ & <-).
  destruct m as [g | p | p | p | r];
    cbn -[gray_palette paletted_palette u32 wrap64];
    rewrite ?length_gray_palette, ?length_paletted_palette.
  - apply u32_palette_sum.
  - apply u32_palette_sum.
  - destruct (Op p); reflexivity.
  - destruct (NOp p); reflexivity.
  - reflexivity.
Qed.

Lemma fileSize_eq_pixOffset_plus_imageSize_witness :
  l_h (EncodeImg_run rgba_all_opaque nrgba_all_opaque (gray_img 5 3 5 nil_slice))
    = Some (MkHeader [66; 77] 1102 [0; 0] 1078 40 5 3 1 8 0 24 0 0 0 0) /\
  fileSize (MkHeader [66; 77] 1102 [0; 0] 1078 40 5 3 1 8 0 24 0 0 0 0)
    = u32 (pixOffset (MkHeader [66; 77] 1102 [0; 0] 1078 40 5 3 1 8 0 24 0 0 0 0)
           + imageSize (MkHeader [66; 77] 1102 [0; 0] 1078 40 5 3 1 8 0 24 0 0 0 0)).
Proof.
  split; [reflexivity |].
  apply (fileSize_eq_pixOffset_plus_imageSize rgba_all_opaque nrgba_all_opaque
           (gray_img 5 3 5 nil_slice)).
  reflexivity.
Defined.

(** C2: [EncodeImg] fails exactly when the bounds report a negative width
    or height; the error is then [errors.New("imgo: negative bounds")], the
    results [pix] and [stride] are the nil slice and 0 and no header is
    built.  It returns no other error: on every other input [err] is nil. *)
Theorem EncodeImg_error_iff_negative_bounds
    (Op : RGBA -> bool) (NOp : NRGBA -> bool) (m : Image) :
  let d := Size (Bounds m) in
  let r := EncodeImg Op NOp m in
  (r_err r = Some err_negative_bounds <-> X d < 0 \/ Y d < 0) /\
  (r_err r = None \/ r_err r = Some err_negative_bounds) /\
  (X d < 0 \/ Y d < 0 ->
     r_pix r = nil_slice /\ sl_data (r_pix r) = [] /\ r_stride r = 0 /\
     l_h (EncodeImg_run Op NOp m) = None) /\
  (0 <= X d -> 0 <= Y d -> r_err r = None).
Proof.
  intros d r.
  destruct (Z_lt_le_dec (X d) 0) as [Hx | Hx];
    [| destruct (Z_lt_le_dec (Y d) 0) as [Hy | Hy]].
  1,2: assert (Hn : X d < 0 \/ Y d < 0) by lia;
       unfold r, EncodeImg; rewrite (run_negative Op NOp m Hn); cbv [r_err r_pix r_stride l_err l_pix l_stride l_h sl_data nil_slice];
       split; [tauto |]; split; [right; reflexivity |];
       split; [intros _; repeat split | intros; lia].
  pose proof (run_nonneg Op NOp m Hx Hy) as Hr.
  destruct (header_switch Op NOp m _ _) as [[[step palette] opaque] h].
  destruct Hr as (He & _).
  unfold r, EncodeImg; cbv [r_err r_pix r_stride]; rewrite He.
  split; [split; [discriminate | lia] |].
  split; [left; reflexivity |].
  split; [lia | auto].
Qed.

Example rgba_opaque_2x2_bpp :
  option_map bpp (l_h (EncodeImg_run rgba_all_opaque nrgba_all_opaque
                         (rgba_img 2 2 nil_slice))) = Some 24.
Proof. reflexivity. Qed.

Example rgba_translucent_2x2_bpp :
  option_map bpp (l_h (EncodeImg_run rgba_never_opaque nrgba_never_opaque
                         (rgba_img 2 2 nil_slice))) = Some 32.
Proof. reflexivity. Qed.

(** C3 (as the spec states it): for a 65536 x 65536 [image.RGBA] that is not
    opaque the row step is 4 * 65536, yet [h.imageSize] is 0 and not
    65536 * (4 * 65536) = 2^34: [uint32(d.Y * step)] keeps the low 32 bits. *)
Lemma rgba_imageSize_truncated :
  exists h,
    l_h (EncodeImg_run rgba_never_opaque nrgba_never_opaque
           (rgba_img 65536 65536 nil_slice)) = Some h /\
    l_step (EncodeImg_run rgba_never_opaque nrgba_never_opaque
           (rgba_img 65536 65536 nil_slice)) = 4 * 65536 /\
    imageSize h = 0 /\ imageSize h <> 65536 * (4 * 65536).
Proof. eexists. split; [reflexivity |]. split; [reflexivity |]. split; [reflexivity | discriminate]. Qed.

(** C3 (amended): for an [image.RGBA] or [image.NRGBA] with non-negative
    bounds, an image that reports itself opaque gets [bpp = 24] and the row
    step [ceil4(3 * W)], any other [bpp = 32] and the step [4 * W] (both as Go
    [int]s, so exact below 2^63); [h.imageSize] is [H] times that step
    reduced modulo 2^32, no palette is built and [h.pixOffset] stays 54. *)
Theorem rgba_header_by_opacity (Op : RGBA -> bool) (NOp : NRGBA -> bool)
    (m : Image) (o : bool) :
  reported_opaque Op NOp m = Some o ->
  0 <= X (Size (Bounds m)) -> 0 <= Y (Size (Bounds m)) ->
  let W := X (Size (Bounds m)) in
  let H := Y (Size (Bounds m)) in
  let rowStride := if o then ceil4 (3 * W) else 4 * W in
  exists h,
    l_h (EncodeImg_run Op NOp m) = Some h /\
    bpp h = (if o then 24 else 32) /\
    l_step (EncodeImg_run Op NOp m) = wrap64 rowStride /\
    imageSize h = u32 (H * rowStride) /\
    l_palette (EncodeImg_run Op NOp m) = [] /\
    pixOffset h = 54.
Proof.
  intros Ho Hx Hy W H rowStride.
  pose proof (run_nonneg Op NOp m Hx Hy) as Hr.
  destruct m as [g | p | p | p | r]; try discriminate Ho;
    cbn [reported_opaque] in Ho; injection Ho as Ho;
    cbn [header_switch] in Hr; rewrite Ho in Hr; subst rowStride;
    destruct o; cbn -[wrap64 u32 Z.ldiff] in Hr;
    destruct Hr as (_ & -> & -> & -> & _);
    (eexists; split; [reflexivity |]); cbn -[wrap64 u32 Z.ldiff];
    rewrite ?wrap64_add_l, ?step_ceil4, ?u32_mul_wrap64;
    repeat split.
Qed.

Lemma rgba_header_by_opacity_witness :
  exists h,
    l_h (EncodeImg_run rgba_all_opaque nrgba_all_opaque (rgba_img 2 2 nil_slice)) = Some h /\
    bpp h = 24 /\
    l_step (EncodeImg_run rgba_all_opaque nrgba_all_opaque (rgba_img 2 2 nil_slice))
      = wrap64 (ceil4 (3 * 2)) /\
    imageSize h = u32 (2 * ceil4 (3 * 2)) /\
    l_palette (EncodeImg_run rgba_all_opaque nrgba_all_opaque (rgba_img 2 2 nil_slice)) = [] /\
    pixOffset h = 54.
Proof.
  apply (rgba_header_by_opacity rgba_all_opaque nrgba_all_opaque
           (rgba_img 2 2 nil_slice) true); vm_compute; try reflexivity; discriminate.
Defined.

Example gray_width5_step :
  l_step (EncodeImg_run rgba_all_opaque nrgba_all_opaque (gray_img 5 2 5 nil_slice)) = 8.
Proof. reflexivity. Qed.
Example gray_width4_step :
  l_step (EncodeImg_run rgba_all_opaque nrgba_all_opaque (gray_img 4 2 4 nil_slice)) = 4.
Proof. reflexivity. Qed.
Example gray_width1_step :
  l_step (EncodeImg_run rgba_all_opaque nrgba_all_opaque (gray_img 1 2 1 nil_slice)) = 4.
Proof. reflexivity. Qed.

(** C4 (as the spec states it): a 65536 x 65536 [image.Gray] has the row
    step 65536, but [h.imageSize] is [uint32(65536 * 65536)] = 0, not 2^32. *)
Lemma gray_imageSize_truncated :
  exists h,
    l_h (EncodeImg_run rgba_all_opaque nrgba_all_opaque
           (gray_img 65536 65536 65536 nil_slice)) = Some h /\
    l_step (EncodeImg_run rgba_all_opaque nrgba_all_opaque
           (gray_img 65536 65536 65536 nil_slice)) = 65536 /\
    imageSize h = 0 /\ imageSize h <> 65536 * 65536.
Proof.
  eexists. split; [vm_compute; reflexivity |].
  split; [vm_compute; reflexivity |]. split; [reflexivity | discriminate].
Qed.

(** C4 (amended): an [image.Gray] or [image.Paletted] with non-negative
    bounds gets the row step [ceil4(W)] (as a Go [int], so exact below
    2^63), [bpp = 8], a 1024-byte palette, [h.pixOffset = 54 + 1024] and
    [h.imageSize] equal to [H * ceil4(W)] reduced modulo 2^32; every other
    image with non-negative bounds keeps [h.pixOffset = 54]. *)
Theorem gray_paletted_header (Op : RGBA -> bool) (NOp : NRGBA -> bool)
    (m : Image) :
  0 <= X (Size (Bounds m)) -> 0 <= Y (Size (Bounds m)) ->
  let W := X (Size (Bounds m)) in
  let H := Y (Size (Bounds m)) in
  exists h,
    l_h (EncodeImg_run Op NOp m) = Some h /\
    (pixOffset h = 54 + 1024 <-> is_8bit m = true) /\
    (is_8bit m = false -> pixOffset h = 54) /\
    (is_8bit m = true ->
       bpp h = 8 /\
       l_step (EncodeImg_run Op NOp m) = wrap64 (ceil4 W) /\
       imageSize h = u32 (H * ceil4 W) /\
       length (l_palette (EncodeImg_run Op NOp m)) = 1024%nat).
Proof.
  intros Hx Hy W H.
  pose proof (run_nonneg Op NOp m Hx Hy) as Hr.
  destruct m as [g | p | p | p | r]; cbn [header_switch] in Hr;
    [| | destruct (Op p) | destruct (NOp p) |];
    cbn -[wrap64 u32 Z.ldiff gray_palette paletted_palette] in Hr;
    destruct Hr as (_ & -> & -> & -> & _);
    (eexists; split; [reflexivity |]);
    cbn -[wrap64 u32 Z.ldiff gray_palette paletted_palette];
    rewrite ?length_gray_palette, ?length_paletted_palette;
    rewrite ?step_ceil4, ?u32_mul_wrap64;
    (split; [split; intros; try reflexivity; discriminate |]);
    (split; [intros; try reflexivity; discriminate |]);
    intros; try discriminate; repeat split.
Qed.

Lemma gray_paletted_header_witness :
  exists h,
    l_h (EncodeImg_run rgba_all_opaque nrgba_all_opaque (gray_img 5 2 5 nil_slice)) = Some h /\
    (pixOffset h = 54 + 1024 <-> is_8bit (gray_img 5 2 5 nil_slice) = true) /\
    (is_8bit (gray_img 5 2 5 nil_slice) = false -> pixOffset h = 54) /\
    (is_8bit (gray_img 5 2 5 nil_slice) = true ->
       bpp h = 8 /\
       l_step (EncodeImg_run rgba_all_opaque nrgba_all_opaque (gray_img 5 2 5 nil_slice))
         = wrap64 (ceil4 5) /\
       imageSize h = u32 (2 * ceil4 5) /\
       length (l_palette (EncodeImg_run rgba_all_opaque nrgba_all_opaque
                            (gray_img 5 2 5 nil_slice))) = 1024%nat).
Proof.
  apply (gray_paletted_header rgba_all_opaque nrgba_all_opaque (gray_img 5 2 5 nil_slice));
    vm_compute; discriminate.
Defined.

(** ** The palette *)

Lemma lookup_set_entry (j j' c : nat) (b g r a : Z) (p : list Z) :
  length p = 1024%nat -> (j < 256)%nat -> (j' < 256)%nat -> (c < 4)%nat ->
  set_entry j b g r a p !! (j' * 4 + c)%nat =
    if decide (j' = j) then Some (nth c [b; g; r; a] 0) else p !! (j' * 4 + c)%nat.
Proof.
  intros Hl Hj Hj' Hc. unfold set_entry.
  rewrite !list_lookup_insert, !length_insert.
  repeat case_decide; subst; try lia;
    destruct c as [| [| [| [| c]]]]; simpl; try lia; reflexivity.
Qed.

Lemma for_loop_palette (k : nat) (cond : nat -> bool) (bb gg rr aa : nat -> Z)
    (fuel i : nat) (s : list Z) :
  (forall j, cond j = (j <? k)%nat) -> (k <= 256)%nat -> (k <= i + fuel)%nat ->
  length s = 1024%nat ->
  forall j c, (j < 256)%nat -> (c < 4)%nat ->
  for_loop cond (fun j p => set_entry j (bb j) (gg j) (rr j) (aa j) p) fuel i s
    !! (j * 4 + c)%nat =
  if decide (i <= j < k)%nat then Some (nth c [bb j; gg j; rr j; aa j] 0)
  else s !! (j * 4 + c)%nat.
Proof.
  intros Hcond Hk. revert i s.
  induction fuel as [| f IH]; intros i s Hf Hs j c Hj Hc; simpl.
  - case_decide; [lia | reflexivity].
  - rewrite Hcond. destruct (Nat.ltb_spec i k) as [Hik | Hik].
    + rewrite IH by (rewrite ?length_set_entry; lia).
      rewrite lookup_set_entry by lia.
      repeat case_decide; subst; try lia; reflexivity.
    + case_decide; [lia | reflexivity].
Qed.

Lemma palette_entry_of_lookup (pal : list Z) (i : nat) (b g r a : Z) :
  (forall c, (c < 4)%nat -> pal !! (i * 4 + c)%nat = Some (nth c [b; g; r; a] 0)) ->
  palette_entry pal i = Some (b, g, r, a).
Proof.
  intros H. unfold palette_entry.
  rewrite (H 0%nat), (H 1%nat), (H 2%nat), (H 3%nat) by lia. reflexivity.
Qed.

Lemma lookup_zero_palette (n : nat) : (n < 1024)%nat -> zero_palette !! n = Some 0.
Proof. intros Hn. apply lookup_replicate_2. exact Hn. Qed.

Lemma gray_palette_entry (i : nat) :
  (i < 256)%nat -> palette_entry gray_palette i = Some (Z.of_nat i, Z.of_nat i, Z.of_nat i, 255).
Proof.
  intros Hi. apply palette_entry_of_lookup. intros c Hc.
  unfold gray_palette.
  rewrite (for_loop_palette 256 _ (fun j => u8 (Z.of_nat j)) (fun j => u8 (Z.of_nat j))
             (fun j => u8 (Z.of_nat j)) (fun _ => 255)); try lia; try reflexivity.
  case_decide; [| lia]. unfold u8. rewrite Z.mod_small by lia. reflexivity.
Qed.

Lemma paletted_palette_entry (pal : list Color) (i : nat) :
  (i < 256)%nat ->
  palette_entry (paletted_palette pal) i =
    if decide (i < length pal)%nat then
      let c := nth i pal black in
      Some (u8 (Z.shiftr (c_b c) 8), u8 (Z.shiftr (c_g c) 8),
            u8 (Z.shiftr (c_r c) 8), 255)
    else Some (0, 0, 0, 0).
Proof.
  intros Hi.
  assert (Hl : forall c, (c < 4)%nat ->
            paletted_palette pal !! (i * 4 + c)%nat =
              if decide (0 <= i < Nat.min (length pal) 256)%nat then
                Some (nth c [u8 (Z.shiftr (c_b (nth i pal black)) 8);
                             u8 (Z.shiftr (c_g (nth i pal black)) 8);
                             u8 (Z.shiftr (c_r (nth i pal black)) 8); 255] 0)
              else zero_palette !! (i * 4 + c)%nat).
  { intros c Hc. unfold paletted_palette.
    apply (for_loop_palette (Nat.min (length pal) 256) _
             (fun j => u8 (Z.shiftr (c_b (nth j pal black)) 8))
             (fun j => u8 (Z.shiftr (c_g (nth j pal black)) 8))
             (fun j => u8 (Z.shiftr (c_r (nth j pal black)) 8))
             (fun _ => 255)); try lia; try reflexivity.
    intros j. destruct (Nat.ltb_spec j (length pal)), (Nat.ltb_spec j 256),
      (Nat.ltb_spec j (Nat.min (length pal) 256)); simpl; lia. }
  destruct (decide (i < length pal)%nat) as [Hlt | Hlt]; simpl;
    apply palette_entry_of_lookup; intros c Hc;
    rewrite Hl by exact Hc; case_decide; try lia; [reflexivity |].
  rewrite lookup_zero_palette by lia.
  destruct c as [| [| [| [| c]]]]; simpl; try lia; reflexivity.
Qed.

Example paletted_red_entry :
  palette_entry (l_palette (EncodeImg_run rgba_all_opaque nrgba_all_opaque
                              (paletted_img 2 2 [red; black; black]))) 0
  = Some (0, 0, 255, 255).
Proof. vm_compute. reflexivity. Qed.

(** C5 (as the spec states it): the stored channel bytes are not the low 8
    bits of the channels: for [gray16_12AB] they are [0x12] (18), the high
    byte of [0x12AB], where the low 8 bits are [0xAB] (171). *)
Lemma palette_channel_not_low_byte :
  palette_entry (l_palette (EncodeImg_run rgba_all_opaque nrgba_all_opaque
                              (paletted_img 1 1 [gray16_12AB]))) 0
    = Some (18, 18, 18, 255) /\
  (u8 (c_b gray16_12AB), u8 (c_g gray16_12AB), u8 (c_r gray16_12AB)) = (171, 171, 171).
Proof. split; vm_compute; reflexivity. Qed.

(** C5 (amended): the palette [EncodeImg] builds (once the bounds are not
    negative) has 1024 bytes.  For an [image.Gray], entry [i] is
    [(i, i, i, 255)] for every [i] in 0..255.  For an [image.Paletted], entry
    [i] below the length of [m.Palette] holds the high bytes [x >> 8] of the
    blue, green and red values the color's [RGBA()] returns (each cut to 8
    bits by [uint8]), then 255; every entry at or past that length is four
    zero bytes.  The other formats build no palette. *)
Theorem EncodeImg_palette_entries (Op : RGBA -> bool) (NOp : NRGBA -> bool)
    (m : Image) :
  0 <= X (Size (Bounds m)) -> 0 <= Y (Size (Bounds m)) ->
  let pal := l_palette (EncodeImg_run Op NOp m) in
  match m with
  | ImgGray _ =>
      length pal = 1024%nat /\
      forall i, (i < 256)%nat ->
        palette_entry pal i = Some (Z.of_nat i, Z.of_nat i, Z.of_nat i, 255)
  | ImgPaletted p =>
      length pal = 1024%nat /\
      forall i, (i < 256)%nat ->
        palette_entry pal i =
          if decide (i < length (pal_Palette p))%nat then
            let c := nth i (pal_Palette p) black in
            Some (u8 (Z.shiftr (c_b c) 8), u8 (Z.shiftr (c_g c) 8),
                  u8 (Z.shiftr (c_r c) 8), 255)
          else Some (0, 0, 0, 0)
  | _ => pal = []
  end.
Proof.
  intros Hx Hy pal.
  pose proof (run_nonneg Op NOp m Hx Hy) as Hr.
  destruct m as [g | p | p | p | r]; cbn [header_switch] in Hr;
    [| | destruct (Op p) | destruct (NOp p) |];
    cbn -[wrap64 u32 Z.ldiff gray_palette paletted_palette] in Hr;
    destruct Hr as (_ & _ & _ & Hp & _); subst pal; rewrite Hp.
  1: split; [apply length_gray_palette | apply gray_palette_entry].
  1: split; [apply length_paletted_palette |
             intros i Hi; apply paletted_palette_entry; exact Hi].
  all: reflexivity.
Qed.

Lemma EncodeImg_palette_entries_witness :
  0 <= 2 /\ 0 <= 2 /\
  length (l_palette (EncodeImg_run rgba_all_opaque nrgba_all_opaque
                       (paletted_img 2 2 [red; black; black]))) = 1024%nat /\
  (forall i, (i < 256)%nat ->
     palette_entry (l_palette (EncodeImg_run rgba_all_opaque nrgba_all_opaque
                                 (paletted_img 2 2 [red; black; black]))) i =
       if decide (i < length [red; black; black])%nat then
         let c := nth i [red; black; black] black in
         Some (u8 (Z.shiftr (c_b c) 8), u8 (Z.shiftr (c_g c) 8),
               u8 (Z.shiftr (c_r c) 8), 255)
       else Some (0, 0, 0, 0)).
Proof.
  split; [lia |]. split; [lia |].
  exact (EncodeImg_palette_entries rgba_all_opaque nrgba_all_opaque
           (paletted_img 2 2 [red; black; black])
           ltac:(vm_compute; discriminate) ltac:(vm_compute; discriminate)).
Defined.

(** ** The pixel buffer and stride *)

Lemma step_mod4 (Op : RGBA -> bool) (NOp : NRGBA -> bool) (m : Image) :
  0 <= X (Size (Bounds m)) -> 0 <= Y (Size (Bounds m)) ->
  l_step (EncodeImg_run Op NOp m) mod 4 = 0.
Proof.
  intros Hx Hy.
  pose proof (run_nonneg Op NOp m Hx Hy) as Hr.
  destruct m as [g | p | p | p | r]; cbn [header_switch] in Hr;
    [| | destruct (Op p) | destruct (NOp p) |];
    cbn -[wrap64 u32 Z.ldiff gray_palette paletted_palette] in Hr;
    destruct Hr as (_ & _ & -> & _);
    rewrite ?wrap64_add_l, ?step_ceil4; apply wrap64_mod4;
    [apply ceil4_mod4 .. | | apply ceil4_mod4 | | apply ceil4_mod4];
    rewrite Z.mul_comm; apply Z.mod_mul; lia.
Qed.

Lemma run_positive (Op : RGBA -> bool) (NOp : NRGBA -> bool) (m : Image) :
  0 < X (Size (Bounds m)) -> 0 < Y (Size (Bounds m)) ->
  EncodeImg Op NOp m = MkResult (fst (pix_switch m)) (snd (pix_switch m)) None.
Proof.
  intros Hx Hy.
  pose proof (run_nonneg Op NOp m ltac:(lia) ltac:(lia)) as Hr.
  destruct (header_switch Op NOp m _ _) as [[[step palette] opaque] h].
  destruct Hr as (He & _ & _ & _ & _ & Hp).
  replace ((X (Size (Bounds m)) =? 0) || (Y (Size (Bounds m)) =? 0)) with false in Hp
    by (symmetry; apply orb_false_iff; split; apply Z.eqb_neq; lia).
  unfold EncodeImg. rewrite He. destruct (pix_switch m) as [pix stride].
  injection Hp as -> ->. reflexivity.
Qed.

(** C6 (as the spec states it): [image.NewGray(image.Rect(0, 0, 5, 1))]
    has [Stride = 5], and [EncodeImg] returns that stride, which is not a
    multiple of 4. *)
Lemma gray_stride_not_padded :
  r_stride (EncodeImg rgba_all_opaque nrgba_all_opaque gray_5x1) = 5 /\
  5 mod 4 <> 0.
Proof. split; [reflexivity | discriminate]. Qed.

(** C6 (amended): for an image of one of the four supported formats with
    positive width and height, the stride [EncodeImg] returns is the image's
    own [Stride] field (a multiple of 4 only if that field is); the row step
    [step] used for [h.imageSize] is always a multiple of 4. *)
Theorem returned_stride_is_native (Op : RGBA -> bool) (NOp : NRGBA -> bool)
    (m : Image) (s : Z) :
  Stride_of m = Some s ->
  0 < X (Size (Bounds m)) -> 0 < Y (Size (Bounds m)) ->
  r_stride (EncodeImg Op NOp m) = s /\ l_step (EncodeImg_run Op NOp m) mod 4 = 0.
Proof.
  intros Hs Hx Hy. split.
  - rewrite run_positive by assumption.
    destruct m; cbn in Hs |- *; congruence.
  - apply step_mod4; lia.
Qed.

Lemma returned_stride_is_native_witness :
  r_stride (EncodeImg rgba_all_opaque nrgba_all_opaque gray_5x1) = 5 /\
  l_step (EncodeImg_run rgba_all_opaque nrgba_all_opaque gray_5x1) mod 4 = 0.
Proof.
  apply (returned_stride_is_native rgba_all_opaque nrgba_all_opaque gray_5x1 5);
    vm_compute; reflexivity.
Defined.

(** C7: for an image of one of the four supported formats with positive
    width and height, [EncodeImg] returns the image's own [Pix] slice (same
    backing array, same bytes: no copy) and its own [Stride].  The model of
    [EncodeImg] is a function of the image value: it writes only to its own
    fresh [header] and palette. *)
Theorem EncodeImg_returns_source_buffer (Op : RGBA -> bool) (NOp : NRGBA -> bool)
    (m : Image) :
  0 < X (Size (Bounds m)) -> 0 < Y (Size (Bounds m)) ->
  let r := EncodeImg Op NOp m in
  match m with
  | ImgGray g => r_pix r = gray_Pix g /\ r_stride r = gray_Stride g
  | ImgPaletted p => r_pix r = pal_Pix p /\ r_stride r = pal_Stride p
  | ImgRGBA p => r_pix r = rgba_Pix p /\ r_stride r = rgba_Stride p
  | ImgNRGBA p => r_pix r = nrgba_Pix p /\ r_stride r = nrgba_Stride p
  | ImgOther _ => True
  end.
Proof.
  intros Hx Hy r. subst r. rewrite run_positive by assumption.
  destruct m; cbn; auto.
Qed.

Lemma EncodeImg_returns_source_buffer_witness :
  r_pix (EncodeImg rgba_all_opaque nrgba_all_opaque gray_5x1) = MkSlice 1 [0; 64; 128; 192; 255] /\
  r_stride (EncodeImg rgba_all_opaque nrgba_all_opaque gray_5x1) = 5.
Proof.
  exact (EncodeImg_returns_source_buffer rgba_all_opaque nrgba_all_opaque gray_5x1
           ltac:(vm_compute; reflexivity) ltac:(vm_compute; reflexivity)).
Defined.

(** ** Well-formed images *)

Lemma pix_in_range_origin (pix : Slice) (stride bpp w h : Z) :
  pix_in_range pix stride bpp w h = true -> 0 < w -> 0 < h ->
  bpp <= Z.of_nat (length (sl_data pix)).
Proof.
  intros Hp Hw Hh. unfold pix_in_range in Hp.
  rewrite forallb_forall in Hp.
  specialize (Hp 0 ltac:(apply (in_map Z.of_nat _ 0%nat), in_seq; lia)).
  rewrite forallb_forall in Hp.
  specialize (Hp 0 ltac:(apply (in_map Z.of_nat _ 0%nat), in_seq; lia)).
  apply andb_true_iff in Hp as [_ Hp]. apply Z.leb_le in Hp. lia.
Qed.

Lemma well_formed_pix_nonempty (m : Image) :
  well_formed m = true -> is_supported m = true ->
  0 < X (Size (Bounds m)) -> 0 < Y (Size (Bounds m)) ->
  sl_data (fst (pix_switch m)) <> [].
Proof.
  intros Hwf Hs Hx Hy Hnil.
  destruct m; try discriminate Hs; cbn [well_formed] in Hwf;
    apply pix_in_range_origin in Hwf; try assumption;
    cbn in Hnil; rewrite Hnil in Hwf; cbn in Hwf; lia.
Qed.

(** C8 (counterexample): [EncodeImg] returns its source's [Pix] and
    [Stride] as they are, so the 5 x 1 gray image with a nil [Pix] and
    [Stride] 0 (a supported format, [W = 5], [H = 1]) also gets an empty
    pixel buffer, stride 0 and a nil error. *)
Theorem EncodeImg_empty_supported_nil_pix :
  let r := EncodeImg rgba_all_opaque nrgba_all_opaque gray_nil_pix in
  X (Size (Bounds gray_nil_pix)) = 5 /\ Y (Size (Bounds gray_nil_pix)) = 1 /\
  is_supported gray_nil_pix = true /\
  r_err r = None /\ sl_data (r_pix r) = [] /\ r_stride r = 0.
Proof.
  intros r. subst r.
  rewrite run_positive by (vm_compute; reflexivity).
  vm_compute. repeat split.
Qed.

(** C8 (amended): for an image with non-negative bounds, [err] is nil;
    [EncodeImg] returns an empty pixel buffer and stride 0 when [W = 0],
    [H = 0] or the image is of none of the four supported types (and in
    that last case the header is still the full 24-bit one); otherwise it
    returns the image's own [Pix] and [Stride].  For an image whose [Pix]
    holds its [W x H] pixels, the empty result occurs exactly in those
    three cases, and in every other case the pixel buffer is non-empty. *)
Theorem EncodeImg_empty_iff (Op : RGBA -> bool) (NOp : NRGBA -> bool)
    (m : Image) :
  0 <= X (Size (Bounds m)) -> 0 <= Y (Size (Bounds m)) ->
  let W := X (Size (Bounds m)) in
  let H := Y (Size (Bounds m)) in
  let r := EncodeImg Op NOp m in
  r_err r = None /\
  (W = 0 \/ H = 0 \/ is_supported m = false -> sl_data (r_pix r) = [] /\ r_stride r = 0) /\
  (W <> 0 -> H <> 0 -> is_supported m = true ->
     r_pix r = fst (pix_switch m) /\ r_stride r = snd (pix_switch m)) /\
  (well_formed m = true ->
     (sl_data (r_pix r) = [] /\ r_stride r = 0 <->
        W = 0 \/ H = 0 \/ is_supported m = false) /\
     (W <> 0 -> H <> 0 -> is_supported m = true -> sl_data (r_pix r) <> [])) /\
  (is_supported m = false ->
     exists h, l_h (EncodeImg_run Op NOp m) = Some h /\ bpp h = 24 /\
       imageSize h = u32 (H * ceil4 (3 * W)) /\
       fileSize h = u32 (54 + imageSize h)).
Proof.
  intros Hx Hy W H r.
  assert (Hsrc : W <> 0 -> H <> 0 -> is_supported m = true ->
            r_pix r = fst (pix_switch m) /\ r_stride r = snd (pix_switch m)).
  { intros HW HH _. subst r. rewrite run_positive by lia. split; reflexivity. }
  assert (Hemp : W = 0 \/ H = 0 \/ is_supported m = false ->
            sl_data (r_pix r) = [] /\ r_stride r = 0).
  { pose proof (run_nonneg Op NOp m Hx Hy) as Hr.
    destruct (header_switch Op NOp m _ _) as [[[step palette] opaque] h].
    destruct Hr as (_ & _ & _ & _ & _ & Hp).
    intros Hcase. subst r. unfold EncodeImg. cbn [r_pix r_stride].
    destruct ((X (Size (Bounds m)) =? 0) || (Y (Size (Bounds m)) =? 0)) eqn:Hz.
    - injection Hp as -> ->. auto.
    - apply orb_false_iff in Hz as [Hz1 Hz2].
      apply Z.eqb_neq in Hz1, Hz2.
      destruct Hcase as [HW | [HH | Hs]]; [exfalso; unfold W, H in *; lia ..|].
      destruct m; try discriminate Hs. cbn in Hp. injection Hp as -> ->. auto. }
  pose proof (run_nonneg Op NOp m Hx Hy) as Hr.
  destruct (header_switch Op NOp m _ _) as [[[step palette] opaque] h] eqn:Hsw.
  destruct Hr as (He & Hh & _ & _ & _ & _).
  split; [exact He |]. split; [exact Hemp |]. split; [exact Hsrc |]. split.
  - intros Hwf.
    assert (Hne : W <> 0 -> H <> 0 -> is_supported m = true -> sl_data (r_pix r) <> []).
    { intros HW HH Hs. rewrite (proj1 (Hsrc HW HH Hs)).
      apply well_formed_pix_nonempty; auto; unfold W, H in *; lia. }
    split; [split; [| exact Hemp] | exact Hne].
    intros [Hd Hs0].
    destruct (Z.eq_dec W 0) as [| HW]; [auto |].
    destruct (Z.eq_dec H 0) as [| HH]; [auto |].
    destruct (is_supported m) eqn:Hsup; [| auto].
    exfalso. exact (Hne HW HH eq_refl Hd).
  - intros Hs. destruct m as [| | | | rb]; try discriminate Hs.
    cbn -[wrap64 u32 Z.ldiff] in Hsw. injection Hsw as <- _ _ <-.
    eexists; split; [exact Hh |]. cbn -[wrap64 u32 Z.ldiff].
    rewrite wrap64_add_l, step_ceil4, u32_mul_wrap64. auto.
Qed.

Lemma EncodeImg_empty_iff_witness :
  let m := gray_5x1 in
  let r := EncodeImg rgba_all_opaque nrgba_all_opaque m in
  0 <= X (Size (Bounds m)) /\ 0 <= Y (Size (Bounds m)) /\
  r_err r = None /\
  (5 = 0 \/ 1 = 0 \/ is_supported m = false -> sl_data (r_pix r) = [] /\ r_stride r = 0) /\
  (5 <> 0 -> 1 <> 0 -> is_supported m = true ->
     r_pix r = fst (pix_switch m) /\ r_stride r = snd (pix_switch m)) /\
  (well_formed m = true ->
     (sl_data (r_pix r) = [] /\ r_stride r = 0 <-> 5 = 0 \/ 1 = 0 \/ is_supported m = false) /\
     (5 <> 0 -> 1 <> 0 -> is_supported m = true -> sl_data (r_pix r) <> [])) /\
  (is_supported m = false ->
     exists h, l_h (EncodeImg_run rgba_all_opaque nrgba_all_opaque m) = Some h /\
       bpp h = 24 /\ imageSize h = u32 (1 * ceil4 (3 * 5)) /\
       fileSize h = u32 (54 + imageSize h)).
Proof.
  split; [vm_compute; discriminate |]. split; [vm_compute; discriminate |].
  exact (EncodeImg_empty_iff rgba_all_opaque nrgba_all_opaque gray_5x1
           ltac:(vm_compute; discriminate) ltac:(vm_compute; discriminate)).
Defined.

(** ** ConvertToRGBA *)

(** C9: on the 2 x 2 sub-image [rgba_sub], [ConvertToRGBA] reuses the pixel
    buffer and stride of [EncodeImg], but its bounds are [(0,0)-(3,3)]: [Width]
    and [Height] return [Bounds().Max], not the width and height 2. *)
Theorem ConvertToRGBA_sub_image_bounds :
  let v := ConvertToRGBA rgba_all_opaque nrgba_all_opaque rgba_sub in
  rgba_Pix v = r_pix (EncodeImg rgba_all_opaque nrgba_all_opaque rgba_sub) /\
  rgba_Stride v = r_stride (EncodeImg rgba_all_opaque nrgba_all_opaque rgba_sub) /\
  Size (Bounds rgba_sub) = MkPoint 2 2 /\
  rgba_Rect v = Rect 0 0 3 3 /\
  rgba_Rect v <> Rect 0 0 2 2.
Proof.
  cbv zeta. repeat split; [reflexivity .. |]. vm_compute. discriminate.
Qed.

(** ** GetSize *)

Lemma quot2_fixed (x : Z) : Z.quot x 2 = x <-> x = 0.
Proof.
  split; [| intros ->; reflexivity].
  intros Hq. pose proof (Z.quot_rem' x 2) as Hd.
  pose proof (Z.rem_bound_abs x 2 ltac:(lia)) as Hb.
  rewrite Hq in Hd.
  assert (Hx : x = -1 \/ x = 0 \/ x = 1) by lia.
  destruct Hx as [-> | [-> | ->]]; [discriminate Hq | reflexivity | discriminate Hq].
Qed.

(** C10: when the file opens and its configuration decodes, [GetSize]
    returns half the decoded width and half the decoded height (Go's
    truncating division) and a nil error; each half equals the decoded
    dimension only when that dimension is 0. *)
Theorem GetSize_returns_halves (File Error : Type)
    (os_Open : string -> File + Error)
    (DecodeConfig : File -> (Config * string) + Error)
    (imagePath : string) (file : File) (c : Config) (fm : string) :
  os_Open imagePath = inl file -> DecodeConfig file = inl (c, fm) ->
  GetSize File Error os_Open DecodeConfig imagePath =
    (Z.quot (cfg_Width c) 2, Z.quot (cfg_Height c) 2, None) /\
  (Z.quot (cfg_Width c) 2 = cfg_Width c <-> cfg_Width c = 0) /\
  (Z.quot (cfg_Height c) 2 = cfg_Height c <-> cfg_Height c = 0).
Proof.
  intros Ho Hd. unfold GetSize. rewrite Ho, Hd.
  split; [reflexivity |]. split; apply quot2_fixed.
Qed.

Lemma GetSize_returns_halves_witness :
  GetSize string string (fun p => inl p)
    (fun _ => inl (MkConfig 640 481, "png"%string)) "a.png"%string = (320, 240, None) /\
  (Z.quot 640 2 = 640 <-> 640 = 0) /\ (Z.quot 481 2 = 481 <-> 481 = 0).
Proof.
  destruct (GetSize_returns_halves string string (fun p => inl p)
              (fun _ => inl (MkConfig 640 481, "png"%string)) "a.png"%string
              "a.png"%string (MkConfig 640 481) "png"%string eq_refl eq_refl)
    as (Hg & Hw & Hh).
  split; [exact Hg |]. split; [exact Hw | exact Hh].
Defined.

(** ** Strings: [strings.Split], [getFm] *)

Local Open Scope string_scope.

Lemma str_append_cons (c : Ascii.ascii) (a b : string) : String c a ++ b = String c (a ++ b).
Proof. reflexivity. Qed.

Lemma str_append_assoc (a b c : string) : (a ++ b) ++ c = a ++ (b ++ c).
Proof. induction a as [| x a IH]; [reflexivity | exact (f_equal (String x) IH)]. Qed.

Lemma str_append_empty_r (a : string) : a ++ "" = a.
Proof. induction a as [| x a IH]; [reflexivity | exact (f_equal (String x) IH)]. Qed.

Lemma count_dot_append (a b : string) : count_dot (a ++ b) = (count_dot a + count_dot b)%nat.
Proof. induction a as [| x a IH]; simpl; [reflexivity | rewrite IH; lia]. Qed.

Lemma index_dot_some (s : string) (m : nat) :
  index_dot s = Some m ->
  s = str_take m s ++ String dot (str_drop (m + 1) s) /\
  count_dot (str_take m s) = O /\
  count_dot s = S (count_dot (str_drop (m + 1) s)).
Proof.
  revert m. induction s as [| c r IH]; intros m Hm; simpl in Hm; [discriminate |].
  destruct (Ascii.eqb_spec c dot) as [-> | Hc].
  - injection Hm as <-. simpl. repeat split.
  - destruct (index_dot r) as [m' |] eqn:Hr; [| discriminate].
    injection Hm as <-. destruct (IH m' eq_refl) as (He & Ht & Hcnt).
    simpl. rewrite (proj2 (Ascii.eqb_neq c dot) Hc), str_append_cons.
    split; [now rewrite <- He | split; assumption].
Qed.

Lemma index_dot_none (s : string) : index_dot s = None -> count_dot s = O.
Proof.
  induction s as [| c r IH]; simpl; [reflexivity |].
  destruct (Ascii.eqb c dot); [discriminate |].
  destruct (index_dot r); [discriminate | intros _; now rewrite IH].
Qed.

Lemma split_loop_spec (fuel : nat) (s : string) :
  (count_dot s <= fuel)%nat ->
  join_dot (split_loop fuel s) = s /\
  Forall (fun w => count_dot w = O) (split_loop fuel s) /\
  split_loop fuel s <> [].
Proof.
  revert s. induction fuel as [| f IH]; intros s Hs; simpl.
  - repeat split; [constructor; [lia | constructor] | discriminate].
  - destruct (index_dot s) as [m |] eqn:Hi.
    + destruct (index_dot_some s m Hi) as (He & Ht & Hc).
      destruct (IH (str_drop (m + 1) s) ltac:(lia)) as (Hj & Hf & Hn).
      split; [| split; [constructor; assumption | discriminate]].
      destruct (split_loop f (str_drop (m + 1) s)) as [| w ws]; [contradiction |].
      change (join_dot (str_take m s :: w :: ws))
        with (str_take m s ++ String dot (join_dot (w :: ws))).
      rewrite Hj. symmetry. exact He.
    + repeat split; [constructor; [now apply index_dot_none | constructor] | discriminate].
Qed.

Lemma join_dot_cons (x : string) (xs : list string) :
  xs <> [] -> join_dot (x :: xs) = x ++ String dot (join_dot xs).
Proof. destruct xs; [contradiction | reflexivity]. Qed.

Lemma join_dot_snoc (xs : list string) (e : string) :
  xs <> [] -> join_dot (List.app xs [e]) = join_dot xs ++ String dot e.
Proof.
  induction xs as [| x xs IH]; intros Hne; [contradiction |].
  destruct xs as [| y ys]; [reflexivity |].
  rewrite <- app_comm_cons, join_dot_cons by (destruct ys; discriminate).
  rewrite IH by discriminate.
  rewrite (join_dot_cons x (y :: ys)) by discriminate.
  rewrite str_append_assoc, str_append_cons. reflexivity.
Qed.

Lemma getFm_suffix (path : string) :
  exists e, getFm path = Some e /\ count_dot e = O /\
    exists pre, path = pre ++ e /\ (pre = "" \/ exists pre', pre = pre' ++ String dot "").
Proof.
  destruct (split_loop_spec (count_dot path) path ltac:(lia)) as (Hj & Hf & Hn).
  unfold getFm, Split_dot.
  destruct (exists_last Hn) as (xs & e & Hxs).
  rewrite Hxs in Hj, Hf |- *.
  exists e. split.
  { destruct (List.app xs [e]) eqn:Hl; [destruct xs; discriminate |].
    rewrite <- Hl, length_app, nth_error_app2 by (simpl; lia). simpl.
    replace (length xs + 1 - 1 - length xs)%nat with O by lia. reflexivity. }
  split; [apply Forall_app in Hf as [_ Hf]; now inversion Hf |].
  destruct xs as [| x xs].
  - exists "". split; [symmetry; exact Hj | now left].
  - rewrite join_dot_snoc in Hj by discriminate.
    exists (join_dot (x :: xs) ++ String dot ""). split.
    + rewrite <- Hj, str_append_assoc. reflexivity.
    + right. eexists. reflexivity.
Qed.

(** [getFm] never panics: [strings.Split] returns at least one field.  It
    returns the text after the last ["."] of the path (the whole path when
    there is none): a dot-free suffix [e] with [path = pre ++ e], where
    [pre] is empty or ends with ["."]. *)
Theorem getFm_last_extension (path : string) :
  exists e, getFm path = Some e /\ count_dot e = O /\
    exists pre, path = pre ++ e /\ (pre = "" \/ exists pre', pre = pre' ++ String dot "").
Proof. exact (getFm_suffix path). Qed.

Local Close Scope string_scope.

Example getFm_jpg : getFm "photo.v1.jpg"%string = Some "jpg"%string.
Proof. reflexivity. Qed.
Example getFm_noext : getFm "README"%string = Some "README"%string.
Proof. reflexivity. Qed.

(** ** [IsBlack] and [ToString] *)

Lemma list_ascii_app (a b : string) :
  list_ascii_of_string (a +:+ b) = list_ascii_of_string a ++ list_ascii_of_string b.
Proof. induction a as [| x a IH]; [reflexivity | exact (f_equal (cons x) IH)]. Qed.

Lemma string_length_list_ascii (s : string) :
  String.length s = List.length (list_ascii_of_string s).
Proof. induction s as [| x s IH]; [reflexivity | exact (f_equal S IH)]. Qed.

Lemma pixel_char_list (c : Color) :
  list_ascii_of_string (pixel_char c) = [if IsBlack c then dot else "O"%char].
Proof. unfold pixel_char. destruct (IsBlack c); reflexivity. Qed.

Lemma cols_loop_spec (img : ImageView) (row : Z) (n : nat) (col : Z) (result : string) :
  (n = O \/ col + Z.of_nat n <= X (Max (iv_Bounds img))) ->
  list_ascii_of_string (cols_loop img row n col result) =
  list_ascii_of_string result ++
    map (fun c => if IsBlack (iv_At img (col + Z.of_nat c) row) then dot else "O"%char)
        (seq 0 n).
Proof.
  revert col result. induction n as [| f IH]; intros col result Hn.
  - cbn [cols_loop seq map]. rewrite app_nil_r. reflexivity.
  - destruct Hn as [Hn | Hn]; [discriminate |].
    cbn [cols_loop]. rewrite (proj2 (Z.ltb_lt _ _)) by lia.
    rewrite IH by (right; lia).
    rewrite list_ascii_app, pixel_char_list, <- app_assoc.
    f_equal. cbn [seq map]. rewrite Z.add_0_r. f_equal.
    rewrite <- seq_shift, map_map. apply map_ext. intros c.
    replace (col + 1 + Z.of_nat c) with (col + Z.of_nat (S c)) by lia. reflexivity.
Qed.

Lemma rows_loop_spec (img : ImageView) (n : nat) (row : Z) (result : string) :
  (n = O \/ row + Z.of_nat n <= Y (Max (iv_Bounds img))) ->
  list_ascii_of_string (rows_loop img n row result) =
  list_ascii_of_string result ++
    concat (map (fun r =>
      map (fun c => if IsBlack (iv_At img (X (Min (iv_Bounds img)) + Z.of_nat c) (row + Z.of_nat r))
                    then dot else "O"%char)
          (seq 0 (Z.to_nat (X (Max (iv_Bounds img)) - X (Min (iv_Bounds img))))) ++ [newline])
      (seq 0 n)).
Proof.
  revert row result. induction n as [| f IH]; intros row result Hn.
  - cbn [rows_loop seq map concat]. rewrite app_nil_r. reflexivity.
  - destruct Hn as [Hn | Hn]; [discriminate |].
    cbn [rows_loop]. rewrite (proj2 (Z.ltb_lt _ _)) by lia.
    rewrite IH by (right; lia).
    rewrite list_ascii_app, cols_loop_spec by lia.
    cbn [seq map concat]. rewrite <- !app_assoc. f_equal.
    rewrite Z.add_0_r. f_equal. f_equal.
    rewrite <- seq_shift, map_map. f_equal. apply map_ext. intros r.
    replace (row + 1 + Z.of_nat r) with (row + Z.of_nat (S r)) by lia. reflexivity.
Qed.

Lemma length_concat_const {A B : Type} (f : A -> list B) (k : nat) (l : list A) :
  (forall a, List.length (f a) = k) ->
  List.length (concat (map f l)) = (List.length l * k)%nat.
Proof.
  intros Hf. induction l as [| a l IH]; [reflexivity |].
  cbn [map concat]. rewrite length_app, IH, Hf. simpl. lia.
Qed.


Lemma ToString_chars (img : ImageView) :
  list_ascii_of_string (ToString img) = expected_rows img.
Proof.
  unfold ToString, expected_rows.
  rewrite rows_loop_spec.
  - reflexivity.
  - destruct (Z.le_gt_cases (Y (Max (iv_Bounds img))) (Y (Min (iv_Bounds img)))).
    + left. lia.
    + right. lia.
Qed.

(** [ToString] writes one line per row [Min.Y .. Max.Y - 1], each holding
    one character per column [Min.X .. Max.X - 1] (["."] for a black pixel,
    ["O"] otherwise) followed by ["\n"]. *)
Theorem ToString_layout (img : ImageView) :
  list_ascii_of_string (ToString img) = expected_rows img.
Proof. exact (ToString_chars img). Qed.

(** The text of [ToString] has [(Max.Y - Min.Y) * (Max.X - Min.X + 1)]
    characters (an empty string when the bounds have no row). *)
Theorem ToString_length (img : ImageView) :
  String.length (ToString img) =
  (Z.to_nat (Y (Max (iv_Bounds img)) - Y (Min (iv_Bounds img))) *
   (Z.to_nat (X (Max (iv_Bounds img)) - X (Min (iv_Bounds img))) + 1))%nat.
Proof.
  rewrite string_length_list_ascii, ToString_chars. unfold expected_rows.
  rewrite (length_concat_const _ (Z.to_nat (X (Max (iv_Bounds img)) - X (Min (iv_Bounds img))) + 1)).
  - rewrite length_seq. reflexivity.
  - intros r. rewrite length_app, length_map, length_seq. reflexivity.
Qed.

(** ** More of [EncodeImg] and [ConvertToRGBA] *)

(** Whenever [EncodeImg] builds its header, the fields no branch of the type
    switch touches keep the values of the literal of lines 15-23: signature
    ["BM"], DIB header size 40, one color plane, no compression, zero
    resolution and color counts; width and height are [uint32(d.X)] and
    [uint32(d.Y)] of the non-negative size. *)
Theorem EncodeImg_header_fixed_fields (Op : RGBA -> bool) (NOp : NRGBA -> bool)
    (m : Image) (h : header) :
  l_h (EncodeImg_run Op NOp m) = Some h ->
  sigBM h = [66; 77] /\ resverved h = [0; 0] /\ dibHeaderSize h = 40 /\
  colorPlane h = 1 /\ compression h = 0 /\ xPixelsPerMeter h = 0 /\
  yPixelsPerMeter h = 0 /\ colorUse h = 0 /\ colorImportant h = 0 /\
  0 <= X (Size (Bounds m)) /\ 0 <= Y (Size (Bounds m)) /\
  width h = X (Size (Bounds m)) mod 2 ^ 32 /\
  height h = Y (Size (Bounds m)) mod 2 ^ 32.
Proof.
  intros Hh. destruct (run_h_some Op NOp m h Hh) as (Hx & Hy & Hs).
  subst h. destruct m as [g | p | p | p | r]; cbn [header_switch];
    [| | destruct (Op p) | destruct (NOp p) |];
    cbn [snd set_sizes header_init sigBM resverved dibHeaderSize colorPlane
         compression xPixelsPerMeter yPixelsPerMeter colorUse colorImportant
         width height];
    unfold u32; repeat split; assumption.
Qed.

Lemma EncodeImg_header_fixed_fields_witness :
  let h := MkHeader [66; 77] (1078 + 24) [0; 0] 1078 40 5 3 1 8 0 24 0 0 0 0 in
  sigBM h = [66; 77] /\ resverved h = [0; 0] /\ dibHeaderSize h = 40 /\
  colorPlane h = 1 /\ compression h = 0 /\ xPixelsPerMeter h = 0 /\
  yPixelsPerMeter h = 0 /\ colorUse h = 0 /\ colorImportant h = 0 /\
  0 <= X (Size (Bounds (gray_img 5 3 5 nil_slice))) /\
  0 <= Y (Size (Bounds (gray_img 5 3 5 nil_slice))) /\
  width h = X (Size (Bounds (gray_img 5 3 5 nil_slice))) mod 2 ^ 32 /\
  height h = Y (Size (Bounds (gray_img 5 3 5 nil_slice))) mod 2 ^ 32.
Proof.
  exact (EncodeImg_header_fixed_fields rgba_all_opaque nrgba_all_opaque
           (gray_img 5 3 5 nil_slice) _ ltac:(vm_compute; reflexivity)).
Defined.

(** What [Opaque()] reports only steers the header, which [EncodeImg] does
    not return: [pix], [stride] and [err] are the same whatever it says.  An
    opaque RGBA image thus gets a 24-bit header, but its 4-byte-per-pixel
    buffer is handed on as it is. *)
Theorem EncodeImg_result_ignores_opacity (Op1 Op2 : RGBA -> bool)
    (NOp1 NOp2 : NRGBA -> bool) (m : Image) :
  EncodeImg Op1 NOp1 m = EncodeImg Op2 NOp2 m.
Proof.
  unfold EncodeImg, EncodeImg_run.
  destruct ((X (Size (Bounds m)) <? 0) || (Y (Size (Bounds m)) <? 0)); [reflexivity |].
  destruct (header_switch Op1 NOp1 m _ _) as [[[s1 p1] o1] h1].
  destruct (header_switch Op2 NOp2 m _ _) as [[[s2 p2] o2] h2].
  destruct ((X (Size (Bounds m)) =? 0) || (Y (Size (Bounds m)) =? 0)); [reflexivity |].
  destruct (pix_switch m). reflexivity.
Qed.

(** [ConvertToRGBA] drops the error of [EncodeImg]: an image whose bounds
    have a negative width or height gives an RGBA with a nil [Pix], stride 0
    and the bounds [image.Rect(0, 0, Max.X, Max.Y)], whose corners
    [image.Rect] puts in order: (0,0)-(-1,5) gives (-1,0)-(0,5). *)
Theorem ConvertToRGBA_negative_bounds (Op : RGBA -> bool) (NOp : NRGBA -> bool)
    (m : Image) :
  X (Size (Bounds m)) < 0 \/ Y (Size (Bounds m)) < 0 ->
  r_err (EncodeImg Op NOp m) = Some err_negative_bounds /\
  ConvertToRGBA Op NOp m =
    MkRGBA nil_slice 0 (Rect 0 0 (X (Max (Bounds m))) (Y (Max (Bounds m)))).
Proof.
  intros Hn. unfold ConvertToRGBA, EncodeImg.
  rewrite (run_negative Op NOp m Hn). split; reflexivity.
Qed.

Lemma ConvertToRGBA_negative_bounds_witness :
  (X (Size (Bounds gray_flipped)) < 0 \/ Y (Size (Bounds gray_flipped)) < 0) /\
  r_err (EncodeImg rgba_all_opaque nrgba_all_opaque gray_flipped) = Some err_negative_bounds /\
  ConvertToRGBA rgba_all_opaque nrgba_all_opaque gray_flipped =
    MkRGBA nil_slice 0 (Rect 0 0 2 1).
Proof.
  assert (H : X (Size (Bounds gray_flipped)) < 0 \/ Y (Size (Bounds gray_flipped)) < 0)
    by (left; vm_compute; reflexivity).
  split; [exact H | exact (ConvertToRGBA_negative_bounds rgba_all_opaque nrgba_all_opaque _ H)].
Defined.

(** For an image of one of the four supported types whose bounds start at
    the origin and are not empty, [ConvertToRGBA] is a view of the source:
    its [Pix], its [Stride] and its very bounds. *)
Theorem ConvertToRGBA_origin_view (Op : RGBA -> bool) (NOp : NRGBA -> bool)
    (m : Image) :
  is_supported m = true ->
  Min (Bounds m) = MkPoint 0 0 ->
  0 < X (Max (Bounds m)) < 2 ^ 63 -> 0 < Y (Max (Bounds m)) < 2 ^ 63 ->
  ConvertToRGBA Op NOp m = MkRGBA (fst (pix_switch m)) (snd (pix_switch m)) (Bounds m) /\
  Some (snd (pix_switch m)) = Stride_of m.
Proof.
  intros Hs Hmin Hx Hy.
  assert (Hsz : Size (Bounds m) = Max (Bounds m)).
  { unfold Size. rewrite Hmin. cbn [X Y]. rewrite !Z.sub_0_r, !wrap64_small by lia.
    destruct (Max (Bounds m)); reflexivity. }
  unfold ConvertToRGBA. rewrite run_positive by (rewrite Hsz; lia).
  split; [| destruct m; [reflexivity .. | discriminate]].
  cbn [r_pix r_stride]. f_equal.
  unfold Rect, Width, Height.
  rewrite (proj2 (Z.ltb_ge _ _)) by lia. rewrite (proj2 (Z.ltb_ge _ _)) by lia.
  destruct (Bounds m) as [mn mx]. cbn in Hmin |- *. subst mn.
  destruct mx; reflexivity.
Qed.

Lemma ConvertToRGBA_origin_view_witness :
  ConvertToRGBA rgba_all_opaque nrgba_all_opaque gray_5x1 =
    MkRGBA (MkSlice 1 [0; 64; 128; 192; 255]) 5 (rect_wh 5 1) /\
  Some 5 = Stride_of gray_5x1.
Proof.
  exact (ConvertToRGBA_origin_view rgba_all_opaque nrgba_all_opaque gray_5x1
           eq_refl eq_refl ltac:(vm_compute; split; reflexivity)
           ltac:(vm_compute; split; reflexivity)).
Defined.

(** ** base64 *)

Lemma store_ok (d : list Z) (i : nat) (v : Z) :
  (i < length d)%nat -> store d i v = Some (<[i := v]> d).
Proof. intros H. unfold store. rewrite (proj2 (Nat.ltb_lt _ _) H). reflexivity. Qed.

Lemma enc_at_In (enc : Encoding) (v : Z) :
  length (encode enc) = 64%nat -> In (enc_at enc v) (encode enc).
Proof.
  intros H. unfold enc_at. apply nth_In. rewrite H.
  change 63 with (Z.ones 6). rewrite Z.land_ones by lia.
  pose proof (Z.mod_pos_bound v (2 ^ 6) ltac:(lia)). lia.
Qed.

Lemma length_encodeStd : length (encode StdEncoding) = 64%nat.
Proof. reflexivity. Qed.

Lemma lookup_insert4 (d : list Z) (b : nat) (v0 v1 v2 v3 : Z) (i : nat) :
  (b + 3 < length d)%nat ->
  <[(b + 3)%nat := v3]> (<[(b + 2)%nat := v2]> (<[(b + 1)%nat := v1]> (<[b := v0]> d))) !! i =
  if (i <? b)%nat || (b + 3 <? i)%nat then d !! i
  else Some (nth (i - b) [v0; v1; v2; v3] 0).
Proof.
  intros H. rewrite !list_lookup_insert, !length_insert.
  destruct (Nat.ltb_spec i b), (Nat.ltb_spec (b + 3) i); cbn [orb];
    repeat case_decide; try lia; try reflexivity;
    f_equal; replace (i - b)%nat with (if decide (i = b) then 0%nat else
      if decide (i = b + 1)%nat then 1%nat else if decide (i = b + 2)%nat then 2%nat else 3%nat)
      by (repeat case_decide; lia);
    repeat case_decide; try lia; reflexivity.
Qed.

Lemma encode_loop_spec (enc : Encoding) (src : list Z) (q : nat) :
  length (encode enc) = 64%nat ->
  forall fuel k d1 d2, (k <= q)%nat -> (q <= k + fuel)%nat ->
  (4 * q <= length d1)%nat -> (4 * q <= length d2)%nat ->
  exists r1 r2,
    encode_loop enc src (q * 3) fuel (3 * k) (4 * k) d1 = Some (r1, (q * 3)%nat, (4 * q)%nat) /\
    encode_loop enc src (q * 3) fuel (3 * k) (4 * k) d2 = Some (r2, (q * 3)%nat, (4 * q)%nat) /\
    length r1 = length d1 /\ length r2 = length d2 /\
    (forall i, (i < 4 * k \/ 4 * q <= i)%nat -> r1 !! i = d1 !! i /\ r2 !! i = d2 !! i) /\
    (forall i, (4 * k <= i < 4 * q)%nat ->
       r1 !! i = r2 !! i /\ exists c, r1 !! i = Some c /\ In c (encode enc)).
Proof.
  intros Henc fuel. induction fuel as [| f IH]; intros k d1 d2 Hk Hf H1 H2.
  - assert (k = q) by lia. subst k. cbn [encode_loop].
    replace (3 * q)%nat with (q * 3)%nat by lia.
    exists d1, d2. repeat split; intros; first [lia | split; reflexivity].
  - cbn [encode_loop].
    destruct (Nat.ltb_spec (3 * k) (q * 3)) as [Hlt | Hge].
    + repeat (rewrite store_ok by (rewrite ?length_insert; lia); cbn [mbind option_bind]).
      replace (3 * k + 3)%nat with (3 * S k)%nat by lia.
      replace (4 * k + 4)%nat with (4 * S k)%nat by lia.
      match goal with
      | |- exists _ _, encode_loop _ _ _ _ _ _ ?e1 = _ /\ encode_loop _ _ _ _ _ _ ?e2 = _ /\ _ =>
          destruct (IH (S k) e1 e2 ltac:(lia) ltac:(lia)
                      ltac:(rewrite !length_insert; lia) ltac:(rewrite !length_insert; lia))
            as (r1 & r2 & E1 & E2 & L1 & L2 & Fr & Ins)
      end.
      exists r1, r2. rewrite E1, E2. rewrite !length_insert in L1, L2.
      refine (conj eq_refl (conj eq_refl (conj L1 (conj L2 (conj _ _))))).
      * intros i Hi. destruct (Fr i ltac:(lia)) as [F1 F2]. rewrite F1, F2.
        rewrite !lookup_insert4 by lia.
        replace ((i <? 4 * k)%nat || (4 * k + 3 <? i)%nat) with true
          by (symmetry; apply orb_true_iff; destruct Hi; [left | right]; apply Nat.ltb_lt; lia).
        split; reflexivity.
      * intros i Hi. destruct (Nat.lt_ge_cases i (4 * S k)) as [Hs | Hs].
        -- destruct (Fr i ltac:(lia)) as [F1 F2]. rewrite F1, F2.
           rewrite !lookup_insert4 by lia.
           replace ((i <? 4 * k)%nat || (4 * k + 3 <? i)%nat) with false
             by (symmetry; apply orb_false_iff; split; apply Nat.ltb_ge; lia).
           split; [reflexivity |]. eexists; split; [reflexivity |].
           assert (Hc : (i - 4 * k = 0 \/ i - 4 * k = 1 \/ i - 4 * k = 2 \/ i - 4 * k = 3)%nat)
             by lia.
           destruct Hc as [-> | [-> | [-> | ->]]]; apply enc_at_In; exact Henc.
        -- apply Ins. lia.
    + assert (k = q) by lia. subst k.
      replace (3 * q)%nat with (q * 3)%nat by lia.
      exists d1, d2. repeat split; intros; first [lia | split; reflexivity].
Qed.

Lemma div3_cases (n : nat) :
  (n = n / 3 * 3 + n mod 3 /\ n mod 3 < 3 /\
   (n + 2) / 3 * 4 = 4 * (n / 3) + (if Nat.eqb (n mod 3) 0 then 0 else 4))%nat.
Proof.
  pose proof (Nat.div_mod n 3 ltac:(lia)) as Hd.
  pose proof (Nat.mod_upper_bound n 3 ltac:(lia)) as Hm.
  split; [lia | split; [lia |]].
  replace (n + 2)%nat with (n mod 3 + 2 + n / 3 * 3)%nat by lia.
  rewrite Nat.div_add by lia.
  destruct (n mod 3)%nat as [| [| [| r]]]; cbn; lia.
Qed.

(** [Encode] with a padding encoding writes the first
    [EncodedLen(len(src)) = (len(src) + 2) / 3 * 4] bytes of [dst], each a
    letter of the alphabet or the padding, the same whatever [dst] held,
    and leaves the rest of [dst] as it was. *)
Lemma Encode_b64_spec (enc : Encoding) (src d1 d2 : list Z) :
  length (encode enc) = 64%nat -> padChar enc <> NoPadding ->
  ((length src + 2) / 3 * 4 <= length d1)%nat ->
  ((length src + 2) / 3 * 4 <= length d2)%nat ->
  exists r1 r2,
    Encode_b64 enc d1 src = Some r1 /\ Encode_b64 enc d2 src = Some r2 /\
    length r1 = length d1 /\ length r2 = length d2 /\
    (forall i, ((length src + 2) / 3 * 4 <= i)%nat -> r1 !! i = d1 !! i /\ r2 !! i = d2 !! i) /\
    (forall i, (i < (length src + 2) / 3 * 4)%nat ->
       r1 !! i = r2 !! i /\
       exists c, r1 !! i = Some c /\ In c (encode enc ++ [u8 (padChar enc)])).
Proof.
  intros Henc Hpad H1 H2.
  destruct (div3_cases (length src)) as (Hd & Hm & HK).
  rewrite HK in H1, H2 |- *.
  set (q := (length src / 3)%nat) in *.
  unfold Encode_b64.
  destruct (Nat.eqb_spec (length src) 0) as [H0 | H0].
  { assert (Hr : (length src mod 3 = 0)%nat) by (rewrite H0; reflexivity).
    assert (Hq : q = 0%nat) by lia.
    rewrite Hr, Hq in *. cbn [Nat.eqb] in *.
    exists d1, d2. refine (conj eq_refl (conj eq_refl (conj eq_refl (conj eq_refl (conj _ _))))).
    - intros i _. split; reflexivity.
    - intros i Hi. lia. }
  fold q.
  destruct (encode_loop_spec enc src q Henc (length src) 0 d1 d2 ltac:(lia) ltac:(lia)
              ltac:(destruct (Nat.eqb _ _); lia) ltac:(destruct (Nat.eqb _ _); lia))
    as (r1 & r2 & E1 & E2 & L1 & L2 & Fr & Ins).
  rewrite !Nat.mul_0_r in E1, E2. rewrite E1, E2.
  replace (length src - q * 3)%nat with (length src mod 3)%nat by lia.
  assert (Hin : forall c, In c (encode enc) -> In c (encode enc ++ [u8 (padChar enc)]))
    by (intros c Hc; apply in_or_app; left; exact Hc).
  destruct (length src mod 3)%nat as [| [| [| r]]] eqn:Hr; [| | | lia]; cbn [Nat.eqb] in *.
  - exists r1, r2. refine (conj eq_refl (conj eq_refl (conj L1 (conj L2 (conj _ _))))).
    + intros i Hi. apply Fr. lia.
    + intros i Hi. destruct (Ins i ltac:(lia)) as [Heq [c [Hc Hc']]].
      split; [exact Heq | exists c; split; [exact Hc | apply Hin, Hc']].
  - rewrite (proj2 (Z.eqb_neq _ _) Hpad). cbn [negb].
    repeat (rewrite store_ok by (rewrite ?length_insert; lia); cbn [mbind option_bind]).
    eexists _, _. refine (conj eq_refl (conj eq_refl (conj _ (conj _ (conj _ _))))).
    1, 2: rewrite !length_insert; assumption.
    + intros i Hi. rewrite !lookup_insert4 by lia.
      replace ((i <? 4 * q)%nat || (4 * q + 3 <? i)%nat) with true
        by (symmetry; apply orb_true_iff; right; apply Nat.ltb_lt; lia).
      apply Fr. lia.
    + intros i Hi. rewrite !lookup_insert4 by lia.
      destruct (Nat.ltb_spec i (4 * q)) as [Hl | Hl]; cbn [orb].
      * destruct (Ins i ltac:(lia)) as [Heq [c [Hc Hc']]].
        split; [exact Heq | exists c; split; [exact Hc | apply Hin, Hc']].
      * rewrite (proj2 (Nat.ltb_ge _ _)) by lia. split; [reflexivity |].
        eexists; split; [reflexivity |].
        assert (Hc : (i - 4 * q = 0 \/ i - 4 * q = 1 \/ i - 4 * q = 2 \/ i - 4 * q = 3)%nat)
          by lia.
        destruct Hc as [-> | [-> | [-> | ->]]]; cbn [nth];
          first [apply Hin, enc_at_In, Henc | apply in_or_app; right; left; reflexivity].
  - rewrite (proj2 (Z.eqb_neq _ _) Hpad). cbn [negb].
    repeat (rewrite store_ok by (rewrite ?length_insert; lia); cbn [mbind option_bind]).
    eexists _, _. refine (conj eq_refl (conj eq_refl (conj _ (conj _ (conj _ _))))).
    1, 2: rewrite !length_insert; assumption.
    + intros i Hi. rewrite !lookup_insert4 by lia.
      replace ((i <? 4 * q)%nat || (4 * q + 3 <? i)%nat) with true
        by (symmetry; apply orb_true_iff; right; apply Nat.ltb_lt; lia).
      apply Fr. lia.
    + intros i Hi. rewrite !lookup_insert4 by lia.
      destruct (Nat.ltb_spec i (4 * q)) as [Hl | Hl]; cbn [orb].
      * destruct (Ins i ltac:(lia)) as [Heq [c [Hc Hc']]].
        split; [exact Heq | exists c; split; [exact Hc | apply Hin, Hc']].
      * rewrite (proj2 (Nat.ltb_ge _ _)) by lia. split; [reflexivity |].
        eexists; split; [reflexivity |].
        assert (Hc : (i - 4 * q = 0 \/ i - 4 * q = 1 \/ i - 4 * q = 2 \/ i - 4 * q = 3)%nat)
          by lia.
        destruct Hc as [-> | [-> | [-> | ->]]]; cbn [nth];
          first [apply Hin, enc_at_In, Henc | apply in_or_app; right; left; reflexivity].
Qed.

Lemma EncodedLen_Std (n : Z) :
  0 <= n < 2 ^ 61 -> EncodedLen StdEncoding n = (n + 2) / 3 * 4.
Proof.
  intros Hn. unfold EncodedLen. cbn [padChar StdEncoding NoPadding StdPadding Z.eqb].
  rewrite (wrap64_small (n + 2)) by lia.
  rewrite Z.quot_div_nonneg by lia.
  apply wrap64_small. Z.div_mod_to_equations. lia.
Qed.

Lemma EncodedLen_Raw (n : Z) :
  0 <= n < 2 ^ 61 ->
  EncodedLen RawStdEncoding n = n / 3 * 4 + (n mod 3 * 8 + 5) / 6.
Proof.
  intros Hn. unfold EncodedLen. cbn [padChar RawStdEncoding NoPadding Z.eqb].
  rewrite Z.rem_mod_nonneg, Z.quot_div_nonneg by lia.
  pose proof (Z.mod_pos_bound n 3 ltac:(lia)).
  rewrite (wrap64_small (n mod 3 * 8)), (wrap64_small (n mod 3 * 8 + 5)) by lia.
  rewrite Z.quot_div_nonneg by lia.
  rewrite (wrap64_small (n / 3 * 4)) by (Z.div_mod_to_equations; lia).
  apply wrap64_small. Z.div_mod_to_equations. lia.
Qed.

Lemma to_nat_std_len (n : nat) :
  Z.to_nat ((Z.of_nat n + 2) / 3 * 4) = ((n + 2) / 3 * 4)%nat.
Proof.
  rewrite <- (Nat2Z.id ((n + 2) / 3 * 4)). f_equal.
  rewrite Nat2Z.inj_mul, Nat2Z.inj_div, Nat2Z.inj_add. reflexivity.
Qed.

Lemma EncodeToString_Std (src : list Z) :
  Z.of_nat (length src) < 2 ^ 60 ->
  exists e, EncodeToString StdEncoding src = Some e /\
    length e = ((length src + 2) / 3 * 4)%nat /\
    Encode_b64 StdEncoding (replicate ((length src + 2) / 3 * 4) 0) src = Some e /\
    Forall (fun c => In c (encode StdEncoding ++ [StdPadding])) e.
Proof.
  intros Hn. unfold EncodeToString.
  rewrite EncodedLen_Std by lia.
  replace ((Z.of_nat (length src) + 2) / 3 * 4 <? 0) with false
    by (symmetry; apply Z.ltb_ge; Z.div_mod_to_equations; lia).
  rewrite to_nat_std_len.
  set (K := ((length src + 2) / 3 * 4)%nat).
  destruct (Encode_b64_spec StdEncoding src (replicate K 0) (replicate K 0)
              length_encodeStd ltac:(discriminate)
              ltac:(rewrite length_replicate; lia) ltac:(rewrite length_replicate; lia))
    as (r1 & r2 & E1 & _ & L1 & _ & _ & Ins).
  exists r1. rewrite length_replicate in L1.
  split; [exact E1 | split; [exact L1 | split; [exact E1 |]]].
  apply Forall_lookup. intros i c Hc.
  pose proof (lookup_lt_Some _ _ _ Hc) as Hi.
  destruct (Ins i ltac:(lia)) as [_ [c' [Hc' Hin]]].
  rewrite Hc in Hc'. injection Hc' as <-. exact Hin.
Qed.

(** ** Formats, files and base64 *)

Lemma is_format_false (fm : string) :
  is_format fm = false ->
  String.eqb fm "jpeg" = false /\ String.eqb fm "png" = false /\
  String.eqb fm "gif" = false /\ String.eqb fm "bmp" = false /\
  String.eqb fm "tiff" = false.
Proof. unfold is_format, codec_formats. cbn [existsb]. rewrite !orb_false_iff. tauto. Qed.

Section IO.

Variable Img : Type.
Variable nil_Img : Img.
Variables jpeg_Decode png_Decode gif_Decode bmp_Decode tiff_Decode
  : list Z -> Img * option string.
Variables jpeg_Encode png_Encode gif_Encode bmp_Encode tiff_Encode
  : Img -> list Z * option string.
Variable image_Decode : list Z -> Img * string * option string.
Variable create_error : OS -> string -> option string.
Variable read_error : OS -> string -> option string.

Abbreviation Enc := (Encode Img jpeg_Encode png_Encode gif_Encode bmp_Encode tiff_Encode).
Abbreviation Dec :=
  (Decode Img nil_Img jpeg_Decode png_Decode gif_Decode bmp_Decode tiff_Decode).

Lemma Encode_unsupported (out : list Z) (img : Img) (fm : string) :
  is_format fm = false -> Enc out img fm = (out, Some "Encode: ERROR FORMAT").
Proof.
  intros H. destruct (is_format_false fm H) as (H1 & H2 & H3 & H4 & H5).
  unfold Encode. rewrite H1, H2, H3, H4, H5. reflexivity.
Qed.

Lemma Decode_unsupported (f : list Z) (fm : string) :
  is_format fm = false -> Dec f fm = (nil_Img, Some "Decode: Error format").
Proof.
  intros H. destruct (is_format_false fm H) as (H1 & H2 & H3 & H4 & H5).
  unfold Decode. rewrite H1, H2, H3, H4, H5. reflexivity.
Qed.

(** A format name other than ["jpeg"], ["png"], ["gif"], ["bmp"] and
    ["tiff"] (the names are matched exactly: ["jpg"] or ["PNG"] are not
    among them) makes [Decode] return a nil image and ["Decode: Error
    format"], makes [Encode] fail with ["Encode: ERROR FORMAT"] without
    writing a byte, [ToBytes] return a nil slice with that error, and
    [ToByteImg] return a nil slice. *)
Theorem unsupported_format_errors (f out : list Z) (img : Img) (fm : string)
    (rest : list string) :
  is_format fm = false ->
  Dec f fm = (nil_Img, Some "Decode: Error format") /\
  Enc out img fm = (out, Some "Encode: ERROR FORMAT") /\
  ToBytes Img jpeg_Encode png_Encode gif_Encode bmp_Encode tiff_Encode img fm =
    ([], Some "Encode: ERROR FORMAT") /\
  ToByteImg Img jpeg_Encode png_Encode gif_Encode bmp_Encode tiff_Encode img (fm :: rest) =
    Some [].
Proof.
  intros H. split; [exact (Decode_unsupported f fm H) |].
  split; [exact (Encode_unsupported out img fm H) |].
  unfold ToBytes, ToByteImg. cbv zeta.
  rewrite !(Encode_unsupported [] img fm H). split; reflexivity.
Qed.



(** [ToByteImg] sizes its output for [RawStdEncoding] and 1024 more input
    bytes, but fills it with [StdEncoding]: when [Encode] succeeds with the
    bytes [buff] (of any realistic length), the result is the padded
    standard base64 text of [buff] followed by at least 1363 zero bytes. *)
Theorem ToByteImg_zero_padded (img : Img) (fm : list string) (buff : list Z) :
  Enc [] img (match fm with [] => "jpeg" | t :: _ => t end) = (buff, None) ->
  Z.of_nat (length buff) < 2 ^ 60 ->
  exists e z,
    EncodeToString StdEncoding buff = Some e /\
    ToByteImg Img jpeg_Encode png_Encode gif_Encode bmp_Encode tiff_Encode img fm =
      Some (e ++ replicate z 0) /\
    Z.of_nat (length e + z) = EncodedLen RawStdEncoding (Z.of_nat (length buff) + 1024) /\
    (1363 <= z)%nat.
Proof.
  clear nil_Img jpeg_Decode png_Decode gif_Decode bmp_Decode tiff_Decode image_Decode create_error.
  intros He Hn. unfold ToByteImg. cbv zeta. rewrite He.
  rewrite (wrap64_small (Z.of_nat (length buff) + 1024)) by lia.
  rewrite EncodedLen_Raw by lia.
  set (n := Z.of_nat (length buff)) in *.
  set (l := (n + 1024) / 3 * 4 + ((n + 1024) mod 3 * 8 + 5) / 6).
  assert (Hl : (n + 2) / 3 * 4 + 1363 <= l)
    by (subst l; Z.div_mod_to_equations; lia).
  replace (l <? 0) with false by (symmetry; apply Z.ltb_ge; Z.div_mod_to_equations; lia).
  destruct (EncodeToString_Std buff Hn) as (e & Ee & Le & Be & _).
  set (K := ((length buff + 2) / 3 * 4)%nat) in *.
  assert (HK : Z.of_nat K = (n + 2) / 3 * 4)
    by (subst K n; rewrite <- to_nat_std_len, Z2Nat.id; [reflexivity | Z.div_mod_to_equations; lia]).
  set (L := Z.to_nat l).
  assert (HKL : (K + 1363 <= L)%nat) by (subst L; lia).
  destruct (Encode_b64_spec StdEncoding buff (replicate L 0) (replicate K 0)
              length_encodeStd ltac:(discriminate)
              ltac:(rewrite length_replicate; lia) ltac:(rewrite length_replicate; lia))
    as (r1 & r2 & E1 & E2 & L1 & L2 & Fr & Ins).
  rewrite Be in E2. injection E2 as <-.
  rewrite length_replicate in L1, L2.
  exists e, (L - K)%nat. split; [exact Ee |]. split; [| split; [| lia]].
  - rewrite E1. f_equal. apply list_eq. intros i.
    destruct (Nat.lt_ge_cases i K) as [Hi | Hi].
    + rewrite lookup_app_l by lia. apply Ins. exact Hi.
    + rewrite lookup_app_r by lia. destruct (Fr i Hi) as [-> _].
      destruct (Nat.lt_ge_cases i L) as [Hi' | Hi'].
      * rewrite !lookup_replicate_2 by lia. reflexivity.
      * rewrite !(proj1 (lookup_replicate_None _ _ _)) by lia. reflexivity.
  - rewrite Le. replace (K + (L - K))%nat with L by lia. subst L. rewrite Z2Nat.id; [reflexivity |].
    Z.div_mod_to_equations; lia.
Qed.

(** When [ioutil.ReadFile] reads the file (it exists, and opening and
    reading it do not fail), [OpenBase64] of a file of any realistic size
    succeeds with the padded standard base64 text of its bytes:
    [4 * ceil(n / 3)] bytes, each a letter of the base64 alphabet or ['=']. *)
Theorem OpenBase64_std_text (s : OS) (file : string) (data : list Z) :
  os_files s !! file = Some data -> read_error s file = None ->
  Z.of_nat (length data) < 2 ^ 60 ->
  ReadFile read_error s file = inl data /\
  exists e, OpenBase64 read_error s file = Some (e, None) /\
    length e = ((length data + 2) / 3 * 4)%nat /\
    Forall (fun c => In c (bytes_of encodeStd ++ [61])) e.
Proof.
  intros Hf Hr Hn. destruct (EncodeToString_Std data Hn) as (e & Ee & Le & _ & Fe).
  unfold OpenBase64, ReadFile, os_Open. rewrite Hf, Hr. split; [reflexivity |].
  exists e. rewrite Ee. split; [reflexivity | split; [exact Le | exact Fe]].
Qed.

(** [Save] creates (or empties) the file, writes into it exactly the bytes
    [Encode] produces for the extension of [path], closes it, and returns
    [Encode]'s error; no other file changes and no descriptor stays open.
    With an extension outside the five formats the file is left empty: an
    existing file loses its contents. *)
Theorem Save_file_effect (s : OS) (path : string) (img : Img) :
  create_error s path = None ->
  exists fm s',
    getFm path = Some fm /\
    Save Img jpeg_Encode png_Encode gif_Encode bmp_Encode tiff_Encode create_error s path img =
      Some (s', snd (Enc [] img fm)) /\
    os_files s' !! path = Some (fst (Enc [] img fm)) /\
    (forall q, q <> path -> os_files s' !! q = os_files s !! q) /\
    (forall fd q, os_fds s' !! fd = Some (q, true) -> os_fds s !! fd = Some (q, true)) /\
    (is_format fm = false ->
       os_files s' !! path = Some [] /\ snd (Enc [] img fm) = Some "Encode: ERROR FORMAT").
Proof.
  intros Hc. destruct (getFm_suffix path) as (fm & Hfm & _).
  exists fm. unfold Save, os_Create. rewrite Hc, Hfm.
  destruct (Enc [] img fm) as [w err] eqn:He.
  unfold os_Write, os_Close. cbn [os_fds os_files os_next].
  rewrite lookup_insert_eq. cbn [os_fds os_files os_next fst].
  rewrite lookup_insert_eq. cbn [os_fds os_files os_next fst].
  eexists _. split; [reflexivity | split; [reflexivity |]].
  cbn [os_files os_fds snd fst].
  rewrite insert_insert_eq, !lookup_insert_eq. cbn [default app].
  split; [reflexivity | split; [| split]].
  - intros q Hq. rewrite lookup_insert_ne by congruence. reflexivity.
  - intros fd q. rewrite insert_insert_eq.
    destruct (decide (os_next s = fd)) as [<- | Hne].
    + rewrite lookup_insert_eq. discriminate.
    + rewrite lookup_insert_ne by exact Hne. exact id.
  - intros Hf. rewrite (Encode_unsupported [] img fm Hf) in He.
    injection He as <- <-. split; reflexivity.
Qed.

(** [Create] closes the file it opened before returning it (its [defer
    f.Close()] runs at the return): the file exists and is empty, but every
    write through the returned [*os.File] fails and changes nothing. *)
Theorem Create_returns_closed_file (s : OS) (path : string) (b : list Z) :
  create_error s path = None ->
  exists fd s',
    Create create_error s path = (Some fd, None, s') /\
    os_files s' !! path = Some [] /\
    os_Write s' fd b = (s', Some ("write " +:+ path +:+ ": file already closed")).
Proof.
  intros Hc. unfold Create, os_Create. rewrite Hc.
  unfold os_Close. cbn [os_fds os_files os_next]. rewrite lookup_insert_eq.
  eexists _, _. split; [reflexivity |]. cbn [fst os_files].
  split; [apply lookup_insert_eq |].
  unfold os_Write. cbn [os_fds]. rewrite lookup_insert_eq. reflexivity.
Qed.

End IO.

(** ** Witnesses of the I/O properties *)

Lemma unsupported_format_errors_witness :
  is_format "jpg" = false /\
  ToByteImg nat enc_one enc_one enc_one enc_one enc_one 0%nat ["jpg"] = Some [].
Proof.
  split; [reflexivity |].
  exact (proj2 (proj2 (proj2 (unsupported_format_errors nat 0%nat
    dec_one dec_one dec_one dec_one dec_one enc_one enc_one enc_one enc_one enc_one
    [] [] 0%nat "jpg" [] eq_refl)))).
Defined.


Lemma ToByteImg_zero_padded_witness :
  Encode nat enc_one enc_one enc_one enc_one enc_one [] 0%nat "jpeg" = ([1], None) /\
  Z.of_nat (length [1]) < 2 ^ 60 /\
  exists e z,
    EncodeToString StdEncoding [1] = Some e /\
    ToByteImg nat enc_one enc_one enc_one enc_one enc_one 0%nat [] = Some (e ++ replicate z 0) /\
    Z.of_nat (length e + z) = EncodedLen RawStdEncoding (Z.of_nat (length [1]) + 1024) /\
    (1363 <= z)%nat.
Proof.
  split; [reflexivity |]. split; [cbn; lia |].
  apply (ToByteImg_zero_padded nat enc_one enc_one enc_one enc_one enc_one 0%nat [] [1]);
    [reflexivity | cbn; lia].
Defined.

Lemma OpenBase64_std_text_witness :
  os_files os_demo !! "a.png" = Some [137; 80; 78; 71] /\
  os_no_error os_demo "a.png" = None /\
  Z.of_nat (length [137; 80; 78; 71]) < 2 ^ 60 /\
  ReadFile os_no_error os_demo "a.png" = inl [137; 80; 78; 71] /\
  exists e, OpenBase64 os_no_error os_demo "a.png" = Some (e, None) /\
    length e = ((length [137%Z; 80%Z; 78%Z; 71%Z] + 2) / 3 * 4)%nat /\
    Forall (fun c => In c (bytes_of encodeStd ++ [61])) e.
Proof.
  split; [reflexivity |]. split; [reflexivity |]. split; [cbn; lia |].
  apply OpenBase64_std_text; [reflexivity | reflexivity | cbn; lia].
Defined.

Lemma Save_file_effect_witness :
  os_no_error os_demo "a.bmp" = None /\
  exists fm s',
    getFm "a.bmp" = Some fm /\
    Save nat enc_one enc_one enc_one enc_one enc_one os_no_error os_demo "a.bmp" 0%nat =
      Some (s', snd (Encode nat enc_one enc_one enc_one enc_one enc_one [] 0%nat fm)) /\
    os_files s' !! "a.bmp" = Some (fst (Encode nat enc_one enc_one enc_one enc_one enc_one [] 0%nat fm)) /\
    (forall q, q <> "a.bmp" -> os_files s' !! q = os_files os_demo !! q) /\
    (forall fd q, os_fds s' !! fd = Some (q, true) -> os_fds os_demo !! fd = Some (q, true)) /\
    (is_format fm = false ->
       os_files s' !! "a.bmp" = Some [] /\
       snd (Encode nat enc_one enc_one enc_one enc_one enc_one [] 0%nat fm) = Some "Encode: ERROR FORMAT").
Proof.
  split; [reflexivity |].
  exact (Save_file_effect nat enc_one enc_one enc_one enc_one enc_one os_no_error
    os_demo "a.bmp" 0%nat eq_refl).
Defined.

Lemma Create_returns_closed_file_witness :
  os_no_error os_demo "new.png" = None /\
  exists fd s',
    Create os_no_error os_demo "new.png" = (Some fd, None, s') /\
    os_files s' !! "new.png" = Some [] /\
    os_Write s' fd [1] = (s', Some ("write " +:+ "new.png" +:+ ": file already closed")).
Proof.
  split; [reflexivity |].
  exact (Create_returns_closed_file os_no_error os_demo "new.png" [1] eq_refl).
Defined.
